(** * Version resolution and comparison engine of the one-click-apps update checker

    A shallow embedding of the pure core of [scripts/check_updates.js] and of
    the template-aware checker ([advanced_checker.js]): [parseDockerImage],
    [compareVersions], [determineUpdateType], [detectUpdate] and the variable
    resolution loop of [extractAppConfig], together with the JavaScript
    built-ins they call ([parseInt], [String], [split], [replace],
    [includes], the [||] operator and the relational operators).  Calls
    that can throw are modelled with a completion (a result or a throw).

    Strings are sequences of code units, as in JavaScript; the embedding uses
    [string], whose characters are the code units 0..255.  Numbers are the
    values [parseInt] can return: NaN, the infinities and the integers that
    are exactly representable as an IEEE double ([-0] is identified with
    [0]: the code never tells them apart). *)

From Stdlib Require Import ZArith List Bool Ascii String Lia Permutation.
Import ListNotations.
Open Scope string_scope.
Open Scope Z_scope.

(** ** JavaScript built-ins *)

Module JS.

(** *** Strings *)

(** [s.split(sep)] for a separator that is one code unit out of a class:
    [split(':')], [split('/')] and [split(/[.-]/)].  The result is never
    empty; the empty string splits to [[""]]. *)
Fixpoint split_on (sep : ascii -> bool) (s : string) : list string :=
  match s with
  | EmptyString => [EmptyString]
  | String c s' =>
      if sep c then EmptyString :: split_on sep s'
      else match split_on sep s' with
           | [] => [String c EmptyString]
           | t :: ts => String c t :: ts
           end
  end.

Definition is_char (c : ascii) : ascii -> bool := Ascii.eqb c.

(** The class [[.-]]. *)
Definition dot_or_dash (c : ascii) : bool :=
  Ascii.eqb c "."%char || Ascii.eqb c "-"%char.

(** [s.replace(/^v/, '')]. *)
Definition strip_v (s : string) : string :=
  match s with
  | String "v"%char s' => s'
  | _ => s
  end.

Fixpoint drop (n : nat) (s : string) : string :=
  match n, s with
  | O, _ => s
  | S n', String _ s' => drop n' s'
  | S _, EmptyString => EmptyString
  end.

(** First occurrence of [needle] in [s]: the text before it and the text
    after it ([indexOf] followed by the two [substring]s of [replace]). *)
Fixpoint find_first (needle s : string) : option (string * string) :=
  if String.prefix needle s then Some (EmptyString, drop (String.length needle) s)
  else match s with
       | EmptyString => None
       | String c s' =>
           match find_first needle s' with
           | Some (before, after) => Some (String c before, after)
           | None => None
           end
       end.

(** [s.includes(needle)]. *)
Definition includes (needle s : string) : bool :=
  match find_first needle s with
  | Some _ => true
  | None => false
  end.

(** [GetSubstitution] for a string pattern (no captures): in the replacement
    text [$$] is a dollar sign, [$&] the matched text, [$`] the text before
    the match and [$'] the text after it; every other character, also a
    dollar sign followed by digits or [<], is copied. *)
Fixpoint get_substitution (matched before after template : string) : string :=
  match template with
  | EmptyString => EmptyString
  | String "$"%char (String c rest as tail) =>
      if Ascii.eqb c "$"%char then
        String "$"%char (get_substitution matched before after rest)
      else if Ascii.eqb c "&"%char then
        matched ++ get_substitution matched before after rest
      else if Ascii.eqb c "`"%char then
        before ++ get_substitution matched before after rest
      else if Ascii.eqb c "'"%char then
        after ++ get_substitution matched before after rest
      else String "$"%char (get_substitution matched before after tail)
  | String c rest => String c (get_substitution matched before after rest)
  end.

(** [s.replace(pattern, replacement)] with a string pattern: only the first
    occurrence is replaced. *)
Definition replace (s pattern replacement : string) : string :=
  match find_first pattern s with
  | None => s
  | Some (before, after) =>
      before ++ get_substitution pattern before after replacement ++ after
  end.

(** *** Numbers *)

Inductive number : Type :=
| NaN
| Fin (z : Z)
| PInf
| NInf.

(** The double nearest to the integer [m] (ties to even). *)
Definition to_number (m : Z) : number :=
  let a := Z.abs m in
  if a <? 2 ^ 53 then Fin m
  else
    let e := Z.log2 a - 52 in
    let q := Z.shiftr a e in
    let r := a - Z.shiftl q e in
    let half := 2 ^ (e - 1) in
    let q' := if (half <? r) || ((r =? half) && Z.odd q) then q + 1 else q in
    let v := Z.shiftl q' e in
    if 2 ^ 1024 <=? v then (if m <? 0 then NInf else PInf)
    else Fin (Z.sgn m * v).

(** [ToBoolean] of a number. *)
Definition truthy_number (n : number) : bool :=
  match n with
  | NaN => false
  | Fin z => negb (z =? 0)
  | PInf | NInf => true
  end.

(** [a > b] and [a < b] on numbers; false as soon as one side is NaN. *)
Definition num_lt (a b : number) : bool :=
  match a, b with
  | NaN, _ | _, NaN => false
  | Fin x, Fin y => x <? y
  | NInf, NInf => false
  | NInf, _ => true
  | _, PInf => match a with PInf => false | _ => true end
  | _, _ => false
  end.

Definition num_gt (a b : number) : bool := num_lt b a.

(** *** parseInt *)

(** WhiteSpace and LineTerminator code units below 256. *)
Definition is_space (c : ascii) : bool :=
  let n := N_of_ascii c in
  ((9 <=? n) && (n <=? 13) || (n =? 32) || (n =? 160))%N.

Fixpoint trim_start (s : string) : string :=
  match s with
  | String c s' => if is_space c then trim_start s' else s
  | EmptyString => s
  end.

(** Value of a code unit as a digit of the given radix (10 or 16). *)
Definition digit_value (radix : Z) (c : ascii) : option Z :=
  let n := Z.of_N (N_of_ascii c) in
  let d :=
    if (48 <=? n) && (n <=? 57) then Some (n - 48)
    else if (97 <=? n) && (n <=? 102) then Some (n - 87)
    else if (65 <=? n) && (n <=? 70) then Some (n - 55)
    else None in
  match d with
  | Some v => if v <? radix then Some v else None
  | None => None
  end.

(** The longest prefix of radix digits, read as an integer; [None] when the
    prefix is empty. *)
Fixpoint read_digits (radix : Z) (s : string) (acc : option Z) : option Z :=
  match s with
  | EmptyString => acc
  | String c s' =>
      match digit_value radix c with
      | Some d =>
          read_digits radix s'
            (Some (radix * match acc with Some a => a | None => 0 end + d))
      | None => acc
      end
  end.

(** An optional sign: whether it is [-], and the text after it. *)
Definition read_sign (s : string) : bool * string :=
  match s with
  | String c t =>
      if Ascii.eqb c "-"%char then (true, t)
      else if Ascii.eqb c "+"%char then (false, t)
      else (false, s)
  | EmptyString => (false, s)
  end.

(** An optional [0x] or [0X]: the radix, and the text after the prefix. *)
Definition read_radix (s : string) : Z * string :=
  match s with
  | String c (String d t) =>
      if Ascii.eqb c "0"%char && (Ascii.eqb d "x"%char || Ascii.eqb d "X"%char)
      then (16, t) else (10, s)
  | _ => (10, s)
  end.

(** [parseInt(s)] with no radix argument: leading white space is skipped, a
    sign is read, [0x]/[0X] selects radix 16, and the longest prefix of
    digits is converted; NaN when there is none.  (Beyond twenty significant
    digits the language lets an implementation drop digits; the exact value
    is taken here, as V8 does.) *)
Definition parseInt (s : string) : number :=
  let (negative, s2) := read_sign (trim_start s) in
  let (radix, s3) := read_radix s2 in
  match read_digits radix s3 None with
  | None => NaN
  | Some m => to_number (if negative then - m else m)
  end.

(** *** String(number) *)

Definition digit_char (d : Z) : ascii := ascii_of_N (Z.to_N (48 + d)).

(** Decimal digits of a positive integer, most significant first. *)
Fixpoint digits_from (fuel : nat) (n : Z) (acc : string) : string :=
  match fuel with
  | O => acc
  | S fuel' =>
      let acc' := String (digit_char (n mod 10)) acc in
      if n <? 10 then acc' else digits_from fuel' (n / 10) acc'
  end.

Definition decimal (n : Z) : string :=
  digits_from (S (Z.to_nat (Z.log2 n))) n EmptyString.

Definition number_eqb (a b : number) : bool :=
  match a, b with
  | Fin x, Fin y => x =? y
  | PInf, PInf | NInf, NInf => true
  | _, _ => false
  end.

(** The integer with the fewest significant decimal digits that converts to
    the double [x] (the nearest to [x] when there are two, the even one on a
    tie); [n] is the number of digits of [x] and [k] the number of
    significant digits tried. *)
Fixpoint shortest_from (fuel k n : nat) (x : Z) : Z :=
  match fuel with
  | O => x
  | S fuel' =>
      let p := 10 ^ Z.of_nat (n - k) in
      let lo := (x / p) * p in
      let hi := lo + p in
      let ok_lo := number_eqb (to_number lo) (Fin x) in
      let ok_hi := number_eqb (to_number hi) (Fin x) in
      if ok_lo && ok_hi then
        if x - lo <? hi - x then lo
        else if hi - x <? x - lo then hi
        else if Z.even (x / p) then lo else hi
      else if ok_lo then lo
      else if ok_hi then hi
      else shortest_from fuel' (S k) n x
  end.

Definition shortest (x : Z) : Z :=
  if x <? 2 ^ 53 then x
  else let n := String.length (decimal x) in shortest_from n 1 n x.

Fixpoint strip_trailing_zeros (s : string) : string :=
  match s with
  | EmptyString => EmptyString
  | String c s' =>
      match strip_trailing_zeros s' with
      | EmptyString => if Ascii.eqb c "0"%char then EmptyString else String c EmptyString
      | t => String c t
      end
  end.

(** [Number::toString] of a positive integer-valued double: plain digits
    below 10^21, exponent notation from there on. *)
Definition positive_to_string (x : Z) : string :=
  let v := shortest x in
  let ds := decimal v in
  if v <? 10 ^ 21 then ds
  else
    let e := decimal (Z.of_nat (String.length ds) - 1) in
    match strip_trailing_zeros ds with
    | EmptyString => ds
    | String d EmptyString => String d ("e+" ++ e)
    | String d more => String d ("." ++ more ++ "e+" ++ e)
    end.

(** [String(n)]. *)
Definition number_to_string (n : number) : string :=
  match n with
  | NaN => "NaN"
  | PInf => "Infinity"
  | NInf => "-Infinity"
  | Fin z =>
      if z =? 0 then "0"
      else if z <? 0 then "-" ++ positive_to_string (- z)
      else positive_to_string z
  end.

(** *** Values *)

(** The values that occur in the code: [undefined], numbers and strings. *)
Inductive value : Type :=
| Undefined
| Num (n : number)
| Str (s : string).

(** [ToBoolean]. *)
Definition truthy (v : value) : bool :=
  match v with
  | Undefined => false
  | Num n => truthy_number n
  | Str s => negb (String.eqb s EmptyString)
  end.

(** [a || b]. *)
Definition or_else (a b : value) : value := if truthy a then a else b.

(** [arr[i]]: [undefined] past the end. *)
Definition at_index (arr : list value) (i : nat) : value :=
  match nth_error arr i with
  | Some v => v
  | None => Undefined
  end.

(** [String(v)]. *)
Definition to_string (v : value) : string :=
  match v with
  | Undefined => "undefined"
  | Num n => number_to_string n
  | Str s => s
  end.

(** [ToNumber] of a value that is a number or [undefined] (the only operands
    the relational operators meet in [determineUpdateType]). *)
Definition to_num (v : value) : number :=
  match v with
  | Num n => n
  | Undefined => NaN
  | Str s => NaN
  end.

(** [a === b]. *)
Definition strict_equals (a b : value) : bool :=
  match a, b with
  | Undefined, Undefined => true
  | Num x, Num y => number_eqb x y
  | Str x, Str y => String.eqb x y
  | _, _ => false
  end.

(** *** Completions *)

(** A call returns a value or throws. *)
Inductive completion (A : Type) : Type :=
| Normal (a : A)
| Throw.

Arguments Normal {A} a.
Arguments Throw {A}.

Definition bind {A B : Type} (c : completion A) (k : A -> completion B)
  : completion B :=
  match c with
  | Normal a => k a
  | Throw => Throw
  end.

(** [v.replace(/^v/, '')] on any value: a TypeError unless [v] is a string
    ([undefined] has no properties, a number has no [replace]). *)
Definition call_strip_v (v : value) : completion string :=
  match v with
  | Str s => Normal (strip_v s)
  | _ => Throw
  end.

(** [s1 > s2] and [s1 < s2] on strings: code unit order. *)
Definition str_lt (s1 s2 : string) : bool :=
  match String.compare s1 s2 with Lt => true | _ => false end.

Definition str_gt (s1 s2 : string) : bool := str_lt s2 s1.

End JS.

Import JS.

Notation "x <- c ;; k" := (bind c (fun x => k))
  (at level 61, c at next level, right associativity).

(** ** The version comparator ([compareVersions]) *)

(** [p => parseInt(p) || p]. *)
Definition version_part (p : string) : value :=
  or_else (Num (parseInt p)) (Str p).

(** [v.replace(/^v/, '').split(/[.-]/).map(p => parseInt(p) || p)]. *)
Definition version_parts (v : string) : list value :=
  map version_part (split_on dot_or_dash (strip_v v)).

(** One round of the loop of [compareVersions] at index [i]: [Some r] when
    the round returns [r], [None] when it falls through to the next index. *)
Definition compare_position (parts1 parts2 : list value) (i : nat) : option Z :=
  let p1 := or_else (at_index parts1 i) (Num (Fin 0)) in
  let p2 := or_else (at_index parts2 i) (Num (Fin 0)) in
  match p1, p2 with
  | Num a, Num b =>
      if num_gt a b then Some 1
      else if num_lt a b then Some (-1)
      else None
  | _, _ =>
      let str1 := to_string p1 in
      let str2 := to_string p2 in
      if str_gt str1 str2 then Some 1
      else if str_lt str1 str2 then Some (-1)
      else None
  end.

(** [for (let i = ...; i < maxLen; i++)], with [remaining = maxLen - i]. *)
Fixpoint compare_loop (parts1 parts2 : list value) (i remaining : nat) : Z :=
  match remaining with
  | O => 0
  | S remaining' =>
      match compare_position parts1 parts2 i with
      | Some r => r
      | None => compare_loop parts1 parts2 (S i) remaining'
      end
  end.

Definition compareVersions (v1 v2 : string) : Z :=
  if String.eqb v1 v2 then 0
  else
    let parts1 := version_parts v1 in
    let parts2 := version_parts v2 in
    let maxLen := Nat.max (List.length parts1) (List.length parts2) in
    compare_loop parts1 parts2 0 maxLen.

(** The call on arguments of any kind: the only steps that can throw are
    the two [replace] calls, and they do so exactly when an argument that
    was not caught by [v1 === v2] is not a string. *)
Definition compareVersions_any (v1 v2 : value) : completion Z :=
  if strict_equals v1 v2 then Normal 0
  else
    s1 <- call_strip_v v1 ;;
    s2 <- call_strip_v v2 ;;
    let parts1 := map version_part (split_on dot_or_dash s1) in
    let parts2 := map version_part (split_on dot_or_dash s2) in
    let maxLen := Nat.max (List.length parts1) (List.length parts2) in
    Normal (compare_loop parts1 parts2 0 maxLen).

(** ** The update-type classifier ([determineUpdateType]) *)

Inductive update_type : Type := major | minor | patch | other.

(** [p => parseInt(p) || 0]. *)
Definition type_part (p : string) : value :=
  or_else (Num (parseInt p)) (Num (Fin 0)).

Definition type_parts (v : string) : list value :=
  map type_part (split_on dot_or_dash (strip_v v)).

(** [a > b] where each side is an array element or [undefined]. *)
Definition greater (a b : value) : bool := num_gt (to_num a) (to_num b).

Definition determineUpdateType (current latest : string) : update_type :=
  let currentParts := type_parts current in
  let latestParts := type_parts latest in
  if greater (at_index latestParts 0) (at_index currentParts 0) then major
  else if greater (at_index latestParts 1) (at_index currentParts 1) then minor
  else if greater (at_index latestParts 2) (at_index currentParts 2) then patch
  else other.

Definition determineUpdateType_any (current latest : value) : completion update_type :=
  c <- call_strip_v current ;;
  l <- call_strip_v latest ;;
  let currentParts := map type_part (split_on dot_or_dash c) in
  let latestParts := map type_part (split_on dot_or_dash l) in
  Normal
    (if greater (at_index latestParts 0) (at_index currentParts 0) then major
     else if greater (at_index latestParts 1) (at_index currentParts 1) then minor
     else if greater (at_index latestParts 2) (at_index currentParts 2) then patch
     else other).

(** ** The update detector ([detectUpdate]) *)

Module Verdict.
Record t : Type := make {
  hasUpdate : bool;
  currentVersion : string;
  latestVersion : string;
  updateType : option update_type
}.
End Verdict.

(** [latestVersion] is a string or absent ([null]/[undefined]); the result
    is a verdict or [null].  [attempt] is the [try] block: [Normal (Some v)]
    when it returns [v], [Normal None] when it runs to its end, [Throw] when
    one of the two calls throws, which the [catch] turns into [null]. *)
Definition detectUpdate (currentVersion : string) (latestVersion : option string)
  : option Verdict.t :=
  match latestVersion with
  | None => None
  | Some latest =>
      if negb (truthy (Str latest)) then None
      else
        let attempt :=
          comparison <- compareVersions_any (Str latest) (Str currentVersion) ;;
          if comparison >? 0 then
            updateType <- determineUpdateType_any (Str currentVersion) (Str latest) ;;
            Normal (Some (Verdict.make true currentVersion latest (Some updateType)))
          else Normal None in
        match attempt with
        | Throw => None
        | Normal (Some verdict) => Some verdict
        | Normal None => Some (Verdict.make false currentVersion latest None)
        end
  end.

(** ** The image reference parser ([parseDockerImage]) *)

Module Image.
Record t : Type := make {
  full : string;
  registry : string;
  namespace : string;
  repository : string;
  fullName : string;
  currentVersion : string;
  isOfficial : bool
}.
End Image.

Definition parseDockerImage (imageRef : string) : option Image.t :=
  if negb (truthy (Str imageRef)) then None
  else if includes "$$cap_" imageRef then None
  else
    match split_on (is_char ":") imageRef with
    | [imageName; version] =>
        let imageParts := split_on (is_char "/") imageName in
        let '(registry, namespace, repository) :=
          match imageParts with
          | [r] => ("docker.io", "library", r)
          | [n; r] => ("docker.io", n, r)
          | reg :: n :: rest => (reg, n, String.concat "/" rest)
          | [] => ("docker.io", "library", imageName)
          end in
        Some (Image.make imageRef registry namespace repository
                (namespace ++ "/" ++ repository) version
                (String.eqb namespace "library"))
    | _ => None
    end.

(** ** The template variable resolver ([extractAppConfig]) *)

(** *** Plain objects used as maps *)

Module Obj.

(** Own string-keyed properties, in creation order. *)
Definition t : Type := list (string * string).

Fixpoint update (o : t) (key val : string) : t :=
  match o with
  | [] => [(key, val)]
  | (k, v) :: o' =>
      if String.eqb k key then (k, val) :: o'
      else (k, v) :: update o' key val
  end.

(** [o[key] = val] for a string [val].  Assigning a string to [__proto__]
    goes to the inherited setter, which ignores values that are not
    objects: no property is created. *)
Definition set (o : t) (key val : string) : t :=
  if String.eqb key "__proto__" then o else update o key val.

(** A key that is an array index: the canonical decimal form of an
    integer below 2^32 - 1. *)
Definition array_index (key : string) : option Z :=
  match read_digits 10 key None with
  | Some n =>
      if (n <? 2 ^ 32 - 1) && String.eqb (number_to_string (Fin n)) key
      then Some n else None
  | None => None
  end.

Fixpoint insert_by_index (n : Z) (e : string * string)
    (l : list (Z * (string * string))) : list (Z * (string * string)) :=
  match l with
  | [] => [(n, e)]
  | (m, e') :: l' =>
      if n <? m then (n, e) :: l else (m, e') :: insert_by_index n e l'
  end.

Fixpoint index_entries (o : t) : list (Z * (string * string)) :=
  match o with
  | [] => []
  | (k, v) :: o' =>
      match array_index k with
      | Some n => insert_by_index n (k, v) (index_entries o')
      | None => index_entries o'
      end
  end.

Definition named_entries (o : t) : t :=
  filter (fun e => match array_index (fst e) with Some _ => false | None => true end) o.

(** [Object.entries(o)]: array-index keys in ascending order, then the
    other keys in creation order. *)
Definition entries (o : t) : list (string * string) :=
  map snd (index_entries o) ++ named_entries o.

End Obj.

(** *** The parsed template document

    The YAML parser is outside the core; the document is taken as it hands
    it over, with image references, variable ids and default values being
    strings or absent. *)

Module Doc.
Record variable : Type := make_variable {
  id : option string;
  defaultValue : option string
}.

Record service : Type := make_service {
  image : option string
}.

(** [services] is [Object.entries(data.services)], or [None] when the
    document has no [services]; [variables] is
    [data.caproverOneClickApp.variables], empty when absent. *)
Record t : Type := make {
  services : option (list (string * service));
  variables : list variable
}.
End Doc.

Module Service.
(** An element of [services]: the four named fields and the spread
    [...parsed]. *)
Record t : Type := make {
  serviceName : string;
  originalImage : string;
  resolvedImage : string;
  hasVariables : bool;
  parsed : Image.t
}.
End Service.

Module Config.
Record t : Type := make {
  services : list Service.t;
  variables : Obj.t
}.
End Config.

Definition truthy_field (f : option string) : bool :=
  match f with
  | Some s => truthy (Str s)
  | None => false
  end.

(** The loop that fills [variables]. *)
Fixpoint build_variables (declared : list Doc.variable) (variables : Obj.t) : Obj.t :=
  match declared with
  | [] => variables
  | variable :: rest =>
      match Doc.id variable, Doc.defaultValue variable with
      | Some i, Some d =>
          if truthy (Str i) && truthy (Str d)
          then build_variables rest (Obj.set variables i d)
          else build_variables rest variables
      | _, _ => build_variables rest variables
      end
  end.

(** The inner loop: one [replace] per entry of [variables]. *)
Definition substitute (variables : Obj.t) (imageRef : string) : string :=
  fold_left (fun resolvedImage entry => replace resolvedImage (fst entry) (snd entry))
            (Obj.entries variables) imageRef.

(** [resolvedImage] as it stands when the body reaches the unresolved-marker
    test or, without variables, the parser. *)
Definition resolve_image (variables : Obj.t) (imageRef : string) : string :=
  if includes "$$" imageRef then substitute variables imageRef else imageRef.

(** One round of the loop over the services: [None] for [continue]. *)
Definition resolve_service (variables : Obj.t) (appBaseName : string)
    (serviceName : string) (service : Doc.service) : option Service.t :=
  match Doc.image service with
  | None => None
  | Some imageRef =>
      if negb (truthy (Str imageRef)) then None
      else
        let isMainService :=
          String.eqb serviceName "$$cap_appname"
          || String.eqb serviceName ("$$cap_appname-" ++ appBaseName) in
        if negb isMainService then None
        else
          let hasVariables := includes "$$" imageRef in
          let resolvedImage := resolve_image variables imageRef in
          if hasVariables && includes "$$" resolvedImage then None
          else
            match parseDockerImage resolvedImage with
            | None => None
            | Some parsed =>
                Some (Service.make serviceName imageRef resolvedImage hasVariables parsed)
            end
  end.

Fixpoint resolve_services (variables : Obj.t) (appBaseName : string)
    (entries : list (string * Doc.service)) : list Service.t :=
  match entries with
  | [] => []
  | (serviceName, service) :: rest =>
      match resolve_service variables appBaseName serviceName service with
      | Some s => s :: resolve_services variables appBaseName rest
      | None => resolve_services variables appBaseName rest
      end
  end.

(** [extractAppConfig], from the parsed document on; [appBaseName] is
    [path.basename(filePath, '.yml')].  The result keeps [services] and
    [variables]; [None] is [null]. *)
Definition extractAppConfig (data : Doc.t) (appBaseName : string) : option Config.t :=
  match Doc.services data with
  | None => None
  | Some entries =>
      let variables := build_variables (Doc.variables data) [] in
      Some (Config.make (resolve_services variables appBaseName entries) variables)
  end.

(** ** The specification's algorithms

    Definitions that follow the words of the specification (sections 4.2 to
    4.4), next to the variants that read a token the way the code does, with
    [parseInt].  They are what the code is compared against. *)

Module Spec.

(** The token sequence of a version string: one leading [v] stripped, the
    rest split on [.] and [-]. *)
Definition tokens (v : string) : list string :=
  split_on dot_or_dash (strip_v v).

Section Positionwise.

Context {num : Type}.
Variable lt : num -> num -> bool.
Variable show : num -> string.
Variable zero : num.

Inductive token : Type :=
| TNum (n : num)
| TStr (s : string).

Definition token_string (t : token) : string :=
  match t with
  | TNum n => show n
  | TStr s => s
  end.

(** Comparison at one position: numeric when both tokens are numeric, on
    the string forms as soon as one is not. *)
Definition compare_tokens (t1 t2 : token) : Z :=
  match t1, t2 with
  | TNum a, TNum b =>
      if lt b a then 1 else if lt a b then -1 else 0
  | _, _ =>
      if str_lt (token_string t2) (token_string t1) then 1
      else if str_lt (token_string t1) (token_string t2) then -1
      else 0
  end.

(** Missing trailing tokens count as the number zero. *)
Definition pad (n : nat) (l : list token) : list token :=
  l ++ repeat (TNum zero) (n - List.length l).

(** The first position that is not equal decides. *)
Fixpoint first_difference (l : list (token * token)) : Z :=
  match l with
  | [] => 0
  | (t1, t2) :: rest =>
      let r := compare_tokens t1 t2 in
      if r =? 0 then first_difference rest else r
  end.

Definition positionwise (l1 l2 : list token) : Z :=
  let n := Nat.max (List.length l1) (List.length l2) in
  first_difference (combine (pad n l1) (pad n l2)).

End Positionwise.

Arguments TNum {num} n.
Arguments TStr {num} s.

Definition is_digit (c : ascii) : bool :=
  let n := N_of_ascii c in ((48 <=? n) && (n <=? 57))%N.

Fixpoint all_digits (s : string) : bool :=
  match s with
  | EmptyString => true
  | String c s' => is_digit c && all_digits s'
  end.

(** A purely numeric token: decimal digits and nothing else. *)
Definition purely_numeric (t : string) : bool :=
  negb (String.eqb t EmptyString) && all_digits t.

Definition integer_value (t : string) : Z :=
  match read_digits 10 t None with
  | Some n => n
  | None => 0
  end.

Definition integer_string (z : Z) : string :=
  if z =? 0 then "0"
  else if z <? 0 then "-" ++ decimal (- z)
  else decimal z.

(** Section 4.2 as written: a token is an integer when it is purely
    numeric and a string token otherwise. *)
Definition strict_token (t : string) : token :=
  if purely_numeric t then TNum (integer_value t) else TStr t.

Definition compareVersions (a b : string) : Z :=
  if String.eqb a b then 0
  else positionwise Z.ltb integer_string 0
         (map strict_token (tokens a)) (map strict_token (tokens b)).

(** The same algorithm with the integer conversion of the code: a token is
    numeric when [parseInt] finds a number at its start. *)
Definition parsed_token (t : string) : token :=
  match parseInt t with
  | NaN => TStr t
  | n => TNum n
  end.

Definition compareVersions_parsed (a b : string) : Z :=
  positionwise num_lt number_to_string (Fin 0)
    (map parsed_token (tokens a)) (map parsed_token (tokens b)).

(** The tokens on which the amended comparator statement speaks: not empty,
    and of value zero only when written [0]. *)
Definition plain_token (t : string) : bool :=
  negb (String.eqb t EmptyString)
  && (if number_eqb (parseInt t) (Fin 0) then String.eqb t "0" else true).

Definition plain_version (v : string) : bool :=
  forallb plain_token (tokens v).

(** Section 4.3: the classifier over the integers found at the first three
    positions. *)
Definition classify_with {num : Type} (gt : num -> num -> bool)
    (position : string -> nat -> num) (current candidate : string) : update_type :=
  if gt (position candidate 0%nat) (position current 0%nat) then major
  else if gt (position candidate 1%nat) (position current 1%nat) then minor
  else if gt (position candidate 2%nat) (position current 2%nat) then patch
  else other.

(** As written: 0 for a missing or non-numeric position. *)
Definition strict_position (v : string) (i : nat) : Z :=
  match nth_error (tokens v) i with
  | Some t => if purely_numeric t then integer_value t else 0
  | None => 0
  end.

Definition classify : string -> string -> update_type :=
  classify_with Z.gtb strict_position.

(** With the conversion of the code: the number [parseInt] finds, 0 when it
    finds none. *)
Definition parsed_position (v : string) (i : nat) : number :=
  match nth_error (tokens v) i with
  | Some t => let n := parseInt t in if truthy_number n then n else Fin 0
  | None => Fin 0
  end.

Definition classify_parsed : string -> string -> update_type :=
  classify_with num_gt parsed_position.

(** Section 4.4: every occurrence of an id is replaced by the default value,
    and replaced text is not scanned again. *)
Fixpoint replace_all_from (fuel : nat) (s id val : string) : string :=
  match fuel with
  | O => s
  | S fuel' =>
      match find_first id s with
      | None => s
      | Some (before, after) => before ++ val ++ replace_all_from fuel' after id val
      end
  end.

Definition replace_all (s id val : string) : string :=
  replace_all_from (S (String.length s)) s id val.

Definition resolve (rawImage : string) (bindings : list (string * string))
  : string * bool :=
  let hasVariables := includes "$$" rawImage in
  (if hasVariables
   then fold_left (fun r b => replace_all r (fst b) (snd b)) bindings rawImage
   else rawImage,
   hasVariables).

End Spec.

(** ** Auxiliary definitions for the statements *)

(** Number of occurrences of a character. *)
Fixpoint count_char (c : ascii) (s : string) : nat :=
  match s with
  | EmptyString => O
  | String d s' => if Ascii.eqb c d then S (count_char c s') else count_char c s'
  end.

(** Swapping the two sides negates the outcome of a round of the loop. *)
Definition opp_round (r : option Z) : option Z :=
  match r with
  | Some z => Some (- z)
  | None => None
  end.

(** Sample documents: a main service whose image names a variable that is
    not declared, and one whose image names a declared variable twice. *)
Definition undeclared_variable_document : Doc.t :=
  Doc.make
    (Some [("$$cap_appname", Doc.make_service (Some "wordpress:$$cap_wp_version"))])
    [].

Definition repeated_variable_document : Doc.t :=
  Doc.make
    (Some [("$$cap_appname", Doc.make_service (Some "myorg/app-$$cap_ver:$$cap_ver"))])
    [Doc.make_variable (Some "$$cap_ver") (Some "2.1")].

(** The value the loop of [compareVersions] holds at a position, against
    the token the amended algorithm reads there: the same number, the same
    string, or the string ["0"] for the number zero. *)
Definition reads_as (v : value) (t : @Spec.token number) : Prop :=
  match t with
  | Spec.TNum n => (v = Num n /\ n <> NaN) \/ (n = Fin 0 /\ v = Str "0")
  | Spec.TStr s => v = Str s
  end.

(** A position's verdict as a round of the loop: equal means go on. *)
Definition round_of (z : Z) : option Z :=
  if z =? 0 then None else Some z.

(** No character of the string is in the class. *)
Fixpoint none_of (sep : ascii -> bool) (s : string) : bool :=
  match s with
  | EmptyString => true
  | String c s' => negb (sep c) && none_of sep s'
  end.

(** ** The basic extractor ([extractImagesFromYaml]) *)

(** *** The parsed document, as a value

    What [yaml.parse] hands over: [null], a scalar, a sequence or a mapping.
    [Null] also stands for [undefined]: the two are alike in all the
    extractor does with them (both are falsy, and reading a property of
    either is a TypeError).  A boolean or a number is kept by its
    truthiness, which is all that is read of it.  A mapping is kept by its
    [Object.entries], with one entry for a key. *)

Module Yaml.

#[local] Set Warnings "-register-all".

Inductive node : Type :=
| Null
| Scalar (b : bool)
| Text (s : string)
| Seq (items : list node)
| Map (properties : list (string * node)).

(** [ToBoolean]. *)
Definition truthy (v : node) : bool :=
  match v with
  | Null => false
  | Scalar b => b
  | Text s => JS.truthy (Str s)
  | Seq _ => true
  | Map _ => true
  end.

(** The own property [name] of a mapping, [undefined] without one. *)
Fixpoint own (name : string) (properties : list (string * node)) : node :=
  match properties with
  | [] => Null
  | (key, v) :: rest => if String.eqb key name then v else own name rest
  end.

(** [v.name] for a name that no prototype defines ([services] and [image]
    are such names): a TypeError on [null] and [undefined], the own property
    of a mapping, [undefined] on a scalar, a string or a sequence. *)
Definition get (v : node) (name : string) : completion node :=
  match v with
  | Null => Throw
  | Map properties => Normal (own name properties)
  | _ => Normal Null
  end.

(** The elements of an array under their indices ["0"], ["1"], ... *)
Fixpoint indexed_from (i : nat) (items : list node) : list (string * node) :=
  match items with
  | [] => []
  | v :: rest =>
      (number_to_string (Fin (Z.of_nat i)), v) :: indexed_from (S i) rest
  end.

Fixpoint characters (s : string) : list node :=
  match s with
  | EmptyString => []
  | String c s' => Text (String c EmptyString) :: characters s'
  end.

(** [Object.entries(v)]: a TypeError on [null] and [undefined]; the
    elements of a sequence and the characters of a string under their
    indices; nothing for a boolean or a number. *)
Definition entries (v : node) : completion (list (string * node)) :=
  match v with
  | Null => Throw
  | Scalar _ => Normal []
  | Text s => Normal (indexed_from 0 (characters s))
  | Seq items => Normal (indexed_from 0 items)
  | Map properties => Normal properties
  end.

End Yaml.

Module Extracted.
(** An element of [images]: the spread [...parsed] and the service name
    (the [file] field is the base name of the path). *)
Record t : Type := make {
  parsed : Image.t;
  serviceName : string
}.
End Extracted.

(** [parseDockerImage] on a value of the document: the first test,
    [!imageRef || typeof imageRef !== 'string'], answers [null] for all but
    a string. *)
Definition parseDockerImage_node (imageRef : Yaml.node) : option Image.t :=
  match imageRef with
  | Yaml.Text s => parseDockerImage s
  | _ => None
  end.

(** The loop over the services: an image is kept when it is set and the
    parser accepts it; reading [service.image] throws when the service is
    [null]. *)
Fixpoint extract_images (entries : list (string * Yaml.node))
  : completion (list Extracted.t) :=
  match entries with
  | [] => Normal []
  | (serviceName, service) :: rest =>
      image <- Yaml.get service "image" ;;
      if Yaml.truthy image then
        match parseDockerImage_node image with
        | Some parsed =>
            images <- extract_images rest ;;
            Normal (Extracted.make parsed serviceName :: images)
        | None => extract_images rest
        end
      else extract_images rest
  end.

(** [extractImagesFromYaml], from the parsed document on: [document] is how
    [yaml.parse(fs.readFileSync(filePath, 'utf8'))] ended.  [attempt] is
    the [try] block; the [catch] turns a throw of the reading, of the
    parsing or of the block into the empty array. *)
Definition extractImagesFromYaml (document : completion Yaml.node)
  : list Extracted.t :=
  let attempt :=
    data <- document ;;
    services <- Yaml.get data "services" ;;
    if Yaml.truthy services then
      entries <- Yaml.entries services ;;
      extract_images entries
    else Normal [] in
  match attempt with
  | Normal images => images
  | Throw => []
  end.

(** The typed document of the template-aware extractor as a value: a
    mapping with [services], when it has them, and with
    [caproverOneClickApp.variables]; a field that is absent is no
    property. *)
Definition text_field (name : string) (f : option string)
  : list (string * Yaml.node) :=
  match f with
  | Some s => [(name, Yaml.Text s)]
  | None => []
  end.

Definition service_node (service : Doc.service) : Yaml.node :=
  Yaml.Map (text_field "image" (Doc.image service)).

Definition variable_node (variable : Doc.variable) : Yaml.node :=
  Yaml.Map (text_field "id" (Doc.id variable)
            ++ text_field "defaultValue" (Doc.defaultValue variable))%list.

Definition service_nodes (entries : list (string * Doc.service))
  : list (string * Yaml.node) :=
  map (fun entry => (fst entry, service_node (snd entry))) entries.

Definition document_node (data : Doc.t) : Yaml.node :=
  Yaml.Map
    (match Doc.services data with
     | Some entries => [("services", Yaml.Map (service_nodes entries))]
     | None => []
     end
     ++ [("caproverOneClickApp",
          Yaml.Map [("variables", Yaml.Seq (map variable_node (Doc.variables data)))])])%list.

(** ** Arrays of strings *)

(** [arr.includes(x)]. *)
Definition array_includes (arr : list string) (x : string) : bool :=
  existsb (String.eqb x) arr.

(** [arr.indexOf(x)]; [None] is -1. *)
Fixpoint index_of (arr : list string) (x : string) : option nat :=
  match arr with
  | [] => None
  | y :: rest =>
      if String.eqb y x then Some O
      else match index_of rest x with
           | Some i => Some (S i)
           | None => None
           end
  end.

(** [s.endsWith(suffix)]. *)
Definition ends_with (suffix s : string) : bool :=
  (String.length suffix <=? String.length s)%nat
  && String.eqb (drop (String.length s - String.length suffix) s) suffix.

(** ** The Docker Hub lookup: from the response to the result
    ([getDockerHubLatestVersion]) *)

Module Hub.

(** An element of [data.results]. *)
Record tag : Type := make_tag {
  tag_name : string;
  last_updated : option string;
  digest : option string
}.

(** An element of [versions]. *)
Record version : Type := make_version {
  name : string;
  lastUpdated : option string;
  version_digest : option string
}.

(** The result, without the time stamp [lastChecked]. *)
Record t : Type := make {
  versions : list version;
  latestStable : option string
}.

(** The filter on tag names. *)
Definition version_tag (name : string) : bool :=
  if String.eqb name "latest" || String.eqb name "edge" || String.eqb name "dev"
     || String.eqb name "nightly" || String.eqb name "canary"
     || String.eqb name "alpha" || String.eqb name "beta" || String.eqb name "rc"
     || includes "snapshot" name
  then false else true.

Definition filtered (results : list tag) : list version :=
  map (fun t => make_version (tag_name t) (last_updated t) (digest t))
      (filter (fun t => version_tag (tag_name t)) results).

(** [versions[0]?.name || null]. *)
Definition first_name (versions : list version) : option string :=
  match versions with
  | v :: _ => if truthy (Str (name v)) then Some (name v) else None
  | [] => None
  end.

(** What the function returns for the response [data]: [results] is
    [data.results], [None] when [data] or the field is missing ([null] is
    returned then). *)
Definition from_response (results : option (list tag)) : option t :=
  match results with
  | None => None
  | Some rs =>
      let versions := filtered rs in
      Some (make (firstn 10 versions) (first_name versions))
  end.

End Hub.

(** ** The GitHub lookup ([github_checker.js]) *)

Module GitHub.

(** An element of the releases response. *)
Record release : Type := make_release {
  tag_name : string;
  release_name : option string;
  published_at : option string;
  html_url : option string;
  prerelease : bool;
  draft : bool
}.

Record listed : Type := make_listed {
  listed_version : string;
  listed_tagName : string;
  listed_publishedAt : option string
}.

(** The result of [getGitHubLatestRelease], without [lastChecked]. *)
Record t : Type := make {
  version : string;
  tagName : string;
  name : option string;
  publishedAt : option string;
  htmlUrl : option string;
  allVersions : list listed
}.

(** From the response to the result: [None] is [null]. *)
Definition from_response (releases : option (list release)) : option t :=
  match releases with
  | None => None
  | Some [] => None
  | Some rs =>
      let stableReleases := filter (fun r => negb (prerelease r) && negb (draft r)) rs in
      match stableReleases with
      | [] => None
      | latest :: _ =>
          Some (make (strip_v (tag_name latest)) (tag_name latest)
                  (release_name latest) (published_at latest) (html_url latest)
                  (map (fun r => make_listed (strip_v (tag_name r)) (tag_name r)
                                   (published_at r))
                       (firstn 10 stableReleases)))
      end
  end.

(** [DOCKER_TO_GITHUB_MAP], its own properties. *)
Definition DOCKER_TO_GITHUB_MAP : list (string * string) :=
  [ ("gitea/gitea", "go-gitea/gitea");
    ("nextcloud", "nextcloud/server");
    ("ghost", "TryGhost/Ghost");
    ("grafana/grafana", "grafana/grafana");
    ("n8nio/n8n", "n8n-io/n8n");
    ("plausible/analytics", "plausible/analytics");
    ("photoprism/photoprism", "photoprism/photoprism");
    ("louislam/uptime-kuma", "louislam/uptime-kuma");
    ("vaultwarden/server", "dani-garcia/vaultwarden");
    ("jlesage/handbrake", "jlesage/docker-handbrake");
    ("linuxserver/plex", "linuxserver/docker-plex");
    ("calibre-web/calibre-web", "janeczku/calibre-web");
    ("directus/directus", "directus/directus");
    ("appwrite/appwrite", "appwrite/appwrite");
    ("supabase/postgres", "supabase/postgres");
    ("nocodb/nocodb", "nocodb/nocodb");
    ("standardnotes/web", "standardnotes/app");
    ("baserow/baserow", "bram2w/baserow");
    ("docusealco/docuseal", "docusealco/docuseal");
    ("getmeili/meilisearch", "meilisearch/meilisearch");
    ("typesense/typesense", "typesense/typesense");
    ("activepieces/activepieces", "activepieces/activepieces");
    ("budibase/budibase", "Budibase/budibase");
    ("owncloud/server", "owncloud/core");
    ("seafile/seafile-mc", "haiwen/seafile");
    ("joplin/server", "laurent22/joplin");
    ("vikunja/vikunja", "go-vikunja/vikunja");
    ("bookstackapp/bookstack", "BookStackApp/BookStack");
    ("wikijs/wiki", "Requarks/wiki");
    ("glpi/glpi", "glpi-project/glpi");
    ("matomo/matomo", "matomo-org/matomo");
    ("chatwoot/chatwoot", "chatwoot/chatwoot");
    ("discourse/discourse", "discourse/discourse");
    ("mattermost/mattermost-team-edition", "mattermost/mattermost-server");
    ("rocketchat/rocket.chat", "RocketChat/Rocket.Chat");
    ("ethibox/adminer", "vrana/adminer");
    ("jellyfin/jellyfin", "jellyfin/jellyfin");
    ("filebrowser/filebrowser", "filebrowser/filebrowser");
    ("netbox/netbox", "netbox-community/netbox");
    ("outline/outline", "outline/outline");
    ("hedgedoc/hedgedoc", "hedgedoc/hedgedoc");
    ("code-server/code-server", "coder/code-server");
    ("forgejo/forgejo", "codeberg.org/forgejo/forgejo") ].

(** The property names every plain object inherits from
    [Object.prototype]; their values are functions or objects, so truthy
    and without a [split] method. *)
Definition inherited_names : list string :=
  [ "constructor"; "hasOwnProperty"; "isPrototypeOf"; "propertyIsEnumerable";
    "toLocaleString"; "toString"; "valueOf"; "__proto__";
    "__defineGetter__"; "__defineSetter__"; "__lookupGetter__";
    "__lookupSetter__" ].

(** What [getGitHubRepo] can return: a string, an inherited built-in, or
    [null]. *)
Inductive repo : Type :=
| Path (p : string)
| BuiltIn (key : string)
| NoRepo.

Fixpoint own (table : list (string * string)) (key : string) : option string :=
  match table with
  | [] => None
  | (k, v) :: rest => if String.eqb k key then Some v else own rest key
  end.

(** [dockerImage.split(':')[0]]. *)
Definition image_name (dockerImage : string) : string :=
  match split_on (is_char ":") dockerImage with
  | n :: _ => n
  | [] => EmptyString
  end.

(** [DOCKER_TO_GITHUB_MAP[imageName]]: an own property, an inherited
    one, or [undefined]. *)
Definition lookup (imageName : string) : repo :=
  match own DOCKER_TO_GITHUB_MAP imageName with
  | Some p => Path p
  | None =>
      if array_includes inherited_names imageName then BuiltIn imageName
      else NoRepo
  end.

Definition getGitHubRepo (dockerImage : string) : repo :=
  let imageName := image_name dockerImage in
  let inferred :=
    if (List.length (split_on (is_char "/") imageName) =? 2)%nat
    then Path imageName else NoRepo in
  match lookup imageName with
  | Path p => if truthy (Str p) then Path p else inferred
  | BuiltIn key => BuiltIn key
  | NoRepo => inferred
  end.

(** [getGitHubVersionForImage] up to the call of [getGitHubLatestRelease]:
    the owner and the repository it is called with, [None] where [null] is
    returned, a throw where [split] is called on a built-in. *)
Definition release_target (dockerImage : string)
  : completion (option (string * string)) :=
  match getGitHubRepo dockerImage with
  | NoRepo => Normal None
  | BuiltIn _ => Throw
  | Path repoPath =>
      if negb (truthy (Str repoPath)) then Normal None
      else
        match split_on (is_char "/") repoPath with
        | owner :: repo :: _ =>
            if negb (truthy (Str owner)) || negb (truthy (Str repo))
            then Normal None
            else Normal (Some (owner, repo))
        | _ => Normal None
        end
  end.

(** The verdict of [compareWithGitHub]. *)
Record verdict : Type := make_verdict {
  hasUpdate : bool;
  currentVersion : string;
  latestVersion : string;
  releaseUrl : option string;
  verdict_publishedAt : option string
}.

(** [compareWithGitHub]: [githubInfo] is a result or absent. *)
Definition compareWithGitHub (currentVersion : string) (githubInfo : option t)
  : option verdict :=
  match githubInfo with
  | None => None
  | Some info =>
      if negb (truthy (Str (version info))) then None
      else
        let latestVersion := version info in
        let attempt :=
          comparison <- compareVersions_any (Str latestVersion) (Str currentVersion) ;;
          if comparison >? 0 then
            Normal (Some (make_verdict true currentVersion latestVersion
                            (htmlUrl info) (publishedAt info)))
          else Normal None in
        match attempt with
        | Throw => None
        | Normal (Some v) => Some v
        | Normal None =>
            Some (make_verdict false currentVersion latestVersion None None)
        end
  end.

End GitHub.

(** ** The scan and its report ([checkAllApps] of [check_updates.js]) *)

Module Update.
(** An element of [results], without [allVersions]. *)
Record t : Type := make {
  file : string;
  image : string;
  serviceName : string;
  currentVersion : string;
  latestVersion : string;
  updateType : option update_type
}.
End Update.

(** The body of the loop over the images of a file, given what the lookup
    returned for the image: the element pushed, if any. *)
Definition check_image (file : string) (image : Extracted.t)
    (dockerHubInfo : option Hub.t) : option Update.t :=
  match dockerHubInfo with
  | None => None
  | Some info =>
      if truthy_field (Hub.latestStable info) then
        let current := Image.currentVersion (Extracted.parsed image) in
        match detectUpdate current (Hub.latestStable info) with
        | Some updateInfo =>
            if Verdict.hasUpdate updateInfo then
              Some (Update.make file
                      (Image.fullName (Extracted.parsed image))
                      (Extracted.serviceName image)
                      current
                      (match Hub.latestStable info with
                       | Some l => l
                       | None => EmptyString
                       end)
                      (Verdict.updateType updateInfo))
            else None
        | None => None
        end
      else None
  end.

Fixpoint check_images (file : string)
    (images : list (Extracted.t * option Hub.t)) : list Update.t :=
  match images with
  | [] => []
  | (image, info) :: rest =>
      match check_image file image info with
      | Some u => u :: check_images file rest
      | None => check_images file rest
      end
  end.

(** The loop over the files: each file comes with its images and the
    lookup result of each image; [results] and [processedCount]. *)
Fixpoint scan (files : list (string * list (Extracted.t * option Hub.t)))
  : list Update.t * nat :=
  match files with
  | [] => ([], O)
  | (file, images) :: rest =>
      let (results, processedCount) := scan rest in
      match images with
      | [] => (results, processedCount)
      | _ => ((check_images file images ++ results)%list, S processedCount)
      end
  end.

Module Report.
Record summary : Type := make_summary {
  major_count : nat;
  minor_count : nat;
  patch_count : nat;
  other_count : nat
}.

(** The report, without the time stamp. *)
Record t : Type := make {
  totalAppsChecked : nat;
  totalUpdatesAvailable : nat;
  updates : list Update.t;
  summary_of : summary
}.
End Report.

Definition update_type_eqb (a b : update_type) : bool :=
  match a, b with
  | major, major | minor, minor | patch, patch | other, other => true
  | _, _ => false
  end.

(** [r.updateType === type]. *)
Definition has_type (type : update_type) (r : Update.t) : bool :=
  match Update.updateType r with
  | Some t => update_type_eqb t type
  | None => false
  end.

Definition report_of (results : list Update.t) (processedCount : nat) : Report.t :=
  Report.make processedCount (List.length results) results
    (Report.make_summary
       (List.length (filter (has_type major) results))
       (List.length (filter (has_type minor) results))
       (List.length (filter (has_type patch) results))
       (List.length (filter (has_type other) results))).

Definition checkAllApps (files : list (string * list (Extracted.t * option Hub.t)))
  : Report.t :=
  let (results, processedCount) := scan files in
  report_of results processedCount.

(** ** The command line ([main]) and the selection of [applyUpdates] *)

Module Options.
Record t : Type := make {
  applyUpdates : bool;
  dryRun : bool;
  patchOnly : bool;
  minorAndPatch : bool;
  specificApps : list string
}.
End Options.

(** The value after a flag: [args[args.indexOf(flag) + 1]], when the flag
    is there and the value is truthy. *)
Definition flag_value (args : list string) (flag : string) : option string :=
  match index_of args flag with
  | Some i =>
      match nth_error args (S i) with
      | Some v => if truthy (Str v) then Some v else None
      | None => None
      end
  | None => None
  end.

Definition parse_options (args : list string) : Options.t :=
  Options.make
    (array_includes args "--apply")
    (array_includes args "--dry-run")
    (array_includes args "--patch-only")
    (array_includes args "--minor-and-patch")
    (match flag_value args "--apps" with
     | Some v => split_on (is_char ",") v
     | None => []
     end).

(** The two filters on the directory listing. *)
Definition select_files (listing specificApps : list string) : list string :=
  filter (fun f => (List.length specificApps =? 0)%nat || array_includes specificApps f)
         (filter (ends_with ".yml") listing).

(** [updateTypes] as [main] sets it. *)
Definition update_types (options : Options.t) : list update_type :=
  if Options.patchOnly options then [patch]
  else if Options.minorAndPatch options then [minor; patch]
  else [major; minor; patch; other].

(** [report.updates.filter(u => updateTypes.includes(u.updateType))]. *)
Definition updates_to_apply (updateTypes : list update_type)
    (updates : list Update.t) : list Update.t :=
  filter (fun u => existsb (fun t => has_type t u) updateTypes) updates.

(** The updates for which [main] has [applyUpdates] call [updateYamlFile],
    the one function that rewrites a template: none unless applying is
    asked for, none in a dry run. *)
Definition updates_written (args : list string) (updates : list Update.t)
  : list Update.t :=
  let options := parse_options args in
  if Options.applyUpdates options || Options.dryRun options then
    if Options.dryRun options then []
    else updates_to_apply (update_types options) updates
  else [].

(** [--limit] of the template-aware checker: [options.limit] is [null] or
    what [parseInt] makes of the value; [limit ? files.slice(0, limit) :
    files]. *)
Definition parse_limit (args : list string) : option number :=
  match flag_value args "--limit" with
  | Some v => Some (parseInt v)
  | None => None
  end.

(** [arr.slice(0, end)] for a number [end]. *)
Definition slice_to {A : Type} (arr : list A) (last : number) : list A :=
  match last with
  | NaN => []
  | Fin z =>
      if z <? 0 then firstn (Z.to_nat (Z.max (Z.of_nat (List.length arr) + z) 0)) arr
      else firstn (Z.to_nat z) arr
  | PInf => arr
  | NInf => []
  end.

Definition limit_files (files : list string) (limit : option number) : list string :=
  match limit with
  | Some n => if truthy_number n then slice_to files n else files
  | None => files
  end.

(** * Properties *)

(** ** The comparator: range and antisymmetry *)

Section Comparator.

Lemma num_lt_asym (a b : number) : num_lt a b = true -> num_lt b a = false.
Proof.
  destruct a, b; simpl; try reflexivity; try discriminate.
  intros H. apply Z.ltb_lt in H. apply Z.ltb_ge. lia.
Qed.

Lemma str_lt_asym (s1 s2 : string) : str_lt s1 s2 = true -> str_lt s2 s1 = false.
Proof.
  unfold str_lt. rewrite (String.compare_antisym s1 s2).
  destruct (String.compare s2 s1); simpl; congruence.
Qed.

(** What one round of the loop can return. *)
Lemma compare_position_range (parts1 parts2 : list value) (i : nat) (r : Z) :
  compare_position parts1 parts2 i = Some r -> r = 1 \/ r = -1.
Proof.
  unfold compare_position.
  destruct (or_else (at_index parts1 i) (Num (Fin 0))) as [|a|s1],
           (or_else (at_index parts2 i) (Num (Fin 0))) as [|b|s2];
    repeat match goal with
           | |- context [if ?c then _ else _] => destruct c
           end;
    intros H; inversion H; auto.
Qed.

Lemma compare_loop_range (parts1 parts2 : list value) (remaining i : nat) :
  let r := compare_loop parts1 parts2 i remaining in
  r = -1 \/ r = 0 \/ r = 1.
Proof.
  revert i. induction remaining as [|n IH]; intros i; simpl.
  - auto.
  - destruct (compare_position parts1 parts2 i) as [r|] eqn:E.
    + destruct (compare_position_range _ _ _ _ E); auto.
    + apply IH.
Qed.

Lemma decide_opp (lt gt : bool) :
  (gt = true -> lt = false) ->
  opp_round (if gt then Some 1 else if lt then Some (-1) else None)
  = (if lt then Some 1 else if gt then Some (-1) else None).
Proof.
  destruct gt, lt; simpl; intros H; try reflexivity.
  specialize (H eq_refl). discriminate.
Qed.

Lemma compare_position_swap (parts1 parts2 : list value) (i : nat) :
  compare_position parts2 parts1 i = opp_round (compare_position parts1 parts2 i).
Proof.
  unfold compare_position.
  destruct (or_else (at_index parts1 i) (Num (Fin 0))) as [|a|s1],
           (or_else (at_index parts2 i) (Num (Fin 0))) as [|b|s2];
    cbv zeta; unfold num_gt, str_gt;
    rewrite decide_opp; auto using num_lt_asym, str_lt_asym.
Qed.

Lemma compare_loop_swap (parts1 parts2 : list value) (remaining i : nat) :
  compare_loop parts2 parts1 i remaining = - compare_loop parts1 parts2 i remaining.
Proof.
  revert i. induction remaining as [|n IH]; intros i; simpl.
  - reflexivity.
  - rewrite compare_position_swap.
    destruct (compare_position parts1 parts2 i); simpl; auto.
Qed.

Lemma compareVersions_swap (v1 v2 : string) :
  compareVersions v1 v2 = - compareVersions v2 v1.
Proof.
  unfold compareVersions. rewrite (String.eqb_sym v2 v1).
  destruct (String.eqb v1 v2); [reflexivity|].
  rewrite (Nat.max_comm (List.length (version_parts v2))).
  apply compare_loop_swap.
Qed.

Lemma compareVersions_range (v1 v2 : string) :
  compareVersions v1 v2 = -1 \/ compareVersions v1 v2 = 0 \/ compareVersions v1 v2 = 1.
Proof.
  unfold compareVersions. destruct (String.eqb v1 v2); [auto|].
  apply compare_loop_range.
Qed.

End Comparator.

(** On strings the calls do not throw, and return what the string-typed
    functions compute. *)
Lemma compareVersions_any_strings (v1 v2 : string) :
  compareVersions_any (Str v1) (Str v2) = Normal (compareVersions v1 v2).
Proof.
  unfold compareVersions_any, compareVersions. cbn [strict_equals].
  destruct (String.eqb v1 v2); reflexivity.
Qed.

Lemma determineUpdateType_any_strings (current latest : string) :
  determineUpdateType_any (Str current) (Str latest)
  = Normal (determineUpdateType current latest).
Proof.
  reflexivity.
Qed.

(** The throwing paths are there for other arguments. *)
Example compareVersions_any_not_a_string :
  compareVersions_any (Str "1.0") Undefined = Throw
  /\ compareVersions_any (Num (Fin 1)) (Str "1") = Throw
  /\ compareVersions_any Undefined Undefined = Normal 0.
Proof.
  repeat split.
Qed.

(** C7. For all strings [a] and [b], the call [compareVersions(a, b)]
    completes normally, without throwing, and its result is one of -1, 0
    and 1: on strings neither [replace] call throws, and each round of the
    loop either returns 1 or -1 or moves on, with 0 returned after the last
    round. *)
Theorem compareVersions_total (a b : string) :
  exists r : Z,
    compareVersions_any (Str a) (Str b) = Normal r
    /\ compareVersions a b = r
    /\ (r = -1 \/ r = 0 \/ r = 1).
Proof.
  exists (compareVersions a b).
  split; [apply compareVersions_any_strings|].
  split; [reflexivity|apply compareVersions_range].
Qed.

(** C8. Antisymmetry of the comparator:
    [compareVersions a b = - compareVersions b a] for all version strings. *)
Theorem compareVersions_antisymmetric (a b : string) :
  compareVersions a b = - compareVersions b a.
Proof.
  apply compareVersions_swap.
Qed.

(** ** The detector *)

Lemma compareVersions_positive (v1 v2 : string) :
  (compareVersions v1 v2 >? 0) = true <-> compareVersions v1 v2 = 1.
Proof.
  rewrite Z.gtb_gt.
  destruct (compareVersions_range v1 v2) as [H|[H|H]]; rewrite H; lia.
Qed.

Lemma detectUpdate_nonempty (current candidate : string) :
  candidate <> "" ->
  detectUpdate current (Some candidate) =
  Some (if compareVersions candidate current >? 0
        then Verdict.make true current candidate
               (Some (determineUpdateType current candidate))
        else Verdict.make false current candidate None).
Proof.
  intros Hne. unfold detectUpdate, truthy.
  apply String.eqb_neq in Hne. rewrite Hne. cbn [negb]. cbv zeta.
  rewrite compareVersions_any_strings, determineUpdateType_any_strings.
  cbn [bind].
  destruct (compareVersions candidate current >? 0); reflexivity.
Qed.

(** C5, as stated, fails: the empty string is a present candidate, yet the
    detector produces no verdict for it. *)
Lemma detectUpdate_no_verdict_for_empty_candidate :
  ~ exists v : Verdict.t, detectUpdate "1.0.0" (Some "") = Some v.
Proof.
  intros [v H]. vm_compute in H. discriminate.
Qed.

(** C5 (amended). For every current version and every present, non-empty
    candidate the detector produces a verdict; its [hasUpdate] is true
    exactly when the comparator orders the candidate strictly after the
    current version (in either argument order), and it carries an
    [updateType], the classifier's, only when [hasUpdate] is true. *)
Theorem detectUpdate_verdict (current candidate : string) :
  candidate <> "" ->
  exists v : Verdict.t,
    detectUpdate current (Some candidate) = Some v
    /\ Verdict.currentVersion v = current
    /\ Verdict.latestVersion v = candidate
    /\ (Verdict.hasUpdate v = true <-> compareVersions candidate current = 1)
    /\ (Verdict.hasUpdate v = true <-> compareVersions current candidate = -1)
    /\ (Verdict.hasUpdate v = true ->
        Verdict.updateType v = Some (determineUpdateType current candidate))
    /\ (Verdict.hasUpdate v = false -> Verdict.updateType v = None).
Proof.
  intros Hne. rewrite (detectUpdate_nonempty _ _ Hne).
  pose proof (compareVersions_positive candidate current) as Hpos.
  assert (Hswap : compareVersions candidate current = 1 <->
                  compareVersions current candidate = -1).
  { rewrite (compareVersions_swap candidate current). lia. }
  destruct (compareVersions candidate current >? 0);
    eexists; (split; [reflexivity|]); simpl.
  - assert (H1 : compareVersions candidate current = 1) by (apply Hpos; reflexivity).
    repeat split; auto; try discriminate. intros _. apply Hswap, H1.
  - assert (H1 : compareVersions candidate current <> 1).
    { intros H. apply Hpos in H. discriminate. }
    repeat split; auto; try discriminate; intros H; exfalso; tauto.
Qed.

Lemma detectUpdate_verdict_witness :
  exists v : Verdict.t,
    detectUpdate "6.7.0" (Some "6.7.1") = Some v
    /\ Verdict.currentVersion v = "6.7.0"
    /\ Verdict.latestVersion v = "6.7.1"
    /\ (Verdict.hasUpdate v = true <-> compareVersions "6.7.1" "6.7.0" = 1)
    /\ (Verdict.hasUpdate v = true <-> compareVersions "6.7.0" "6.7.1" = -1)
    /\ (Verdict.hasUpdate v = true ->
        Verdict.updateType v = Some (determineUpdateType "6.7.0" "6.7.1"))
    /\ (Verdict.hasUpdate v = false -> Verdict.updateType v = None).
Proof.
  apply (detectUpdate_verdict "6.7.0" "6.7.1"). discriminate.
Defined.

(** C10, as stated, fails: the string ["0"] is not falsy, and the detector
    returns a verdict for it. *)
Lemma detectUpdate_zero_candidate_has_verdict :
  detectUpdate "1" (Some "0") = Some (Verdict.make false "1" "0" None)
  /\ detectUpdate "1" (Some "0") <> None.
Proof.
  split; [vm_compute; reflexivity|vm_compute; discriminate].
Qed.

(** C10 (amended). The only candidate string the detector treats as if no
    candidate were available is the empty string: for it the result is the
    absent one whatever the current version (the comparator's answer plays
    no part), the same as for an absent candidate; every other candidate
    string, ["0"] included, gets a verdict. *)
Theorem detectUpdate_absent_iff_empty (current candidate : string) :
  (detectUpdate current (Some candidate) = None <-> candidate = "")
  /\ detectUpdate current (Some "") = detectUpdate current None.
Proof.
  split; [|reflexivity]. split.
  - intros H. destruct (String.eqb_spec candidate "") as [E|N]; [exact E|].
    rewrite (detectUpdate_nonempty _ _ N) in H. discriminate.
  - intros ->. reflexivity.
Qed.

(** ** Searching and splitting strings *)

Lemma append_assoc (a b c : string) : (a ++ b) ++ c = a ++ b ++ c.
Proof.
  induction a as [|x a IH]; simpl; [reflexivity|now rewrite IH].
Qed.

Lemma append_empty_r (a : string) : a ++ "" = a.
Proof.
  induction a as [|x a IH]; simpl; [reflexivity|now rewrite IH].
Qed.

Lemma prefix_append (needle rest : string) :
  String.prefix needle (needle ++ rest) = true.
Proof.
  induction needle as [|c needle IH]; simpl.
  - destruct rest; reflexivity.
  - destruct (ascii_dec c c) as [_|N]; [exact IH|congruence].
Qed.

Lemma prefix_drop (needle s : string) :
  String.prefix needle s = true -> s = needle ++ drop (String.length needle) s.
Proof.
  revert s. induction needle as [|c needle IH]; intros s H; simpl.
  - reflexivity.
  - destruct s as [|d s]; simpl in H; [discriminate|].
    destruct (ascii_dec c d) as [->|_]; [|discriminate].
    simpl. f_equal. apply IH, H.
Qed.

Lemma find_first_unfold (needle s : string) :
  find_first needle s =
  if String.prefix needle s then Some ("", drop (String.length needle) s)
  else match s with
       | EmptyString => None
       | String c s' =>
           match find_first needle s' with
           | Some (before, after) => Some (String c before, after)
           | None => None
           end
       end.
Proof.
  destruct s; reflexivity.
Qed.

(** [find_first] returns the two sides of an occurrence. *)
Lemma find_first_sound (needle s before after : string) :
  find_first needle s = Some (before, after) -> s = before ++ needle ++ after.
Proof.
  revert before. induction s as [|c s IH]; intros before H;
    rewrite find_first_unfold in H;
    destruct (String.prefix needle _) eqn:P.
  - inversion H; subst. apply prefix_drop, P.
  - discriminate.
  - inversion H; subst. apply prefix_drop, P.
  - destruct (find_first needle s) as [[b a]|] eqn:F; [|discriminate].
    inversion H; subst. simpl. f_equal. apply IH. reflexivity.
Qed.

(** [find_first] misses no occurrence. *)
Lemma find_first_complete (needle pre post : string) :
  find_first needle (pre ++ needle ++ post) <> None.
Proof.
  induction pre as [|c pre IH]; rewrite find_first_unfold.
  - simpl. rewrite prefix_append. discriminate.
  - destruct (String.prefix needle _); [discriminate|].
    simpl. destruct (find_first needle (pre ++ needle ++ post)) as [[b a]|];
      [discriminate|exact IH].
Qed.

Lemma includes_occurrence (needle s : string) :
  includes needle s = true <-> exists pre post, s = pre ++ needle ++ post.
Proof.
  unfold includes. split.
  - destruct (find_first needle s) as [[b a]|] eqn:F; [|discriminate].
    intros _. exists b, a. apply find_first_sound, F.
  - intros (pre & post & ->).
    pose proof (find_first_complete needle pre post) as H.
    destruct (find_first needle (pre ++ needle ++ post)); congruence.
Qed.

(** A longer marker contains the shorter one. *)
Lemma includes_cap_marker (s : string) :
  includes "$$cap_" s = true -> includes "$$" s = true.
Proof.
  rewrite !includes_occurrence. intros (pre & post & ->).
  exists pre, ("cap_" ++ post). reflexivity.
Qed.

(** ** The parser *)

(** C9. A raw reference that still contains the placeholder marker of the
    parser, [$$cap_], anywhere in it is rejected: [parseDockerImage] returns
    the invalid result for it. *)
Theorem parseDockerImage_rejects_placeholder (raw pre post : string) :
  raw = pre ++ "$$cap_" ++ post ->
  parseDockerImage raw = None.
Proof.
  intros H. unfold parseDockerImage.
  destruct (negb (truthy (Str raw))); [reflexivity|].
  assert (I : includes "$$cap_" raw = true).
  { apply includes_occurrence. exists pre, post. exact H. }
  rewrite I. reflexivity.
Qed.

Lemma parseDockerImage_rejects_placeholder_witness :
  "wordpress:$$cap_wp_version" = "wordpress:" ++ "$$cap_" ++ "wp_version"
  /\ parseDockerImage "wordpress:$$cap_wp_version" = None.
Proof.
  split; [reflexivity|].
  apply (parseDockerImage_rejects_placeholder _ "wordpress:" "wp_version").
  reflexivity.
Defined.

(** C9, as stated for the placeholder marker of the specification, [$$],
    fails: the guard of the parser is on [$$cap_], and a reference that
    contains [$$] without it is parsed like any other text (the resolver
    tests for [$$] before it calls the parser). *)
Example parseDockerImage_dollar_text :
  includes "$$" "app:$$tag" = true
  /\ exists r, parseDockerImage "app:$$tag" = Some r
               /\ Image.repository r = "app" /\ Image.currentVersion r = "$$tag".
Proof.
  split; [reflexivity|].
  eexists. split; [vm_compute; reflexivity|split; reflexivity].
Qed.

Lemma split_on_cons (sep : ascii -> bool) (s : string) :
  exists t ts, split_on sep s = t :: ts.
Proof.
  destruct s as [|c s]; simpl; [eauto|].
  destruct (sep c); [eauto|].
  destruct (split_on sep s); eauto.
Qed.

Lemma concat_cons_cons (sep x y : string) (l : list string) :
  String.concat sep (x :: y :: l) = x ++ sep ++ String.concat sep (y :: l).
Proof.
  reflexivity.
Qed.

(** Joining the pieces with the separator gives the string back. *)
Lemma concat_split_on (c : ascii) (s : string) :
  String.concat (String c "") (split_on (is_char c) s) = s.
Proof.
  induction s as [|d s IH]; [reflexivity|].
  destruct (split_on_cons (is_char c) s) as (t & ts & E).
  cbn [split_on]. rewrite E in IH |- *.
  unfold is_char at 1. destruct (Ascii.eqb_spec c d) as [->|N].
  - rewrite concat_cons_cons, IH. reflexivity.
  - destruct ts as [|y l].
    + simpl in *. now rewrite IH.
    + rewrite concat_cons_cons in IH |- *. rewrite <- IH. reflexivity.
Qed.

(** There is one piece more than there are separators. *)
Lemma length_split_on (c : ascii) (s : string) :
  List.length (split_on (is_char c) s) = S (count_char c s).
Proof.
  induction s as [|d s IH]; simpl; [reflexivity|].
  unfold is_char at 1. destruct (Ascii.eqb c d).
  - simpl. now rewrite IH.
  - destruct (split_on_cons (is_char c) s) as (t & ts & E).
    rewrite E in *. exact IH.
Qed.

(** No piece contains the separator. *)
Lemma split_on_pieces (c : ascii) (s : string) :
  Forall (fun t => count_char c t = O) (split_on (is_char c) s).
Proof.
  induction s as [|d s IH]; simpl.
  - repeat constructor.
  - unfold is_char at 1. destruct (Ascii.eqb c d) eqn:E.
    + constructor; [reflexivity|exact IH].
    + destruct (split_on (is_char c) s) as [|t ts].
      * repeat constructor. simpl. now rewrite E.
      * inversion IH; subst. constructor; [|assumption].
        simpl. now rewrite E.
Qed.

(** C4, as stated, fails: a reference is returned with an empty tag for
    ["nginx:"] and with an empty repository for [":1.0"]. *)
Lemma parseDockerImage_empty_tag_or_repository :
  (exists r, parseDockerImage "nginx:" = Some r /\ Image.currentVersion r = "")
  /\ (exists r, parseDockerImage ":1.0" = Some r /\ Image.repository r = "").
Proof.
  split; eexists; (split; [vm_compute; reflexivity|reflexivity]).
Qed.

(** What the parser builds from the image name. *)
Lemma image_name_parts (imageName : string) :
  let '(registry, namespace, repository) :=
    match split_on (is_char "/") imageName with
    | [r] => ("docker.io", "library", r)
    | [n; r] => ("docker.io", n, r)
    | reg :: n :: rest => (reg, n, String.concat "/" rest)
    | [] => ("docker.io", "library", imageName)
    end in
  exists lead, imageName = lead ++ repository.
Proof.
  pose proof (concat_split_on "/" imageName) as J.
  destruct (split_on (is_char "/") imageName) as [|a [|b [|c l]]]; simpl in J.
  - exists "". reflexivity.
  - exists "". symmetry. exact J.
  - exists (a ++ "/"). rewrite append_assoc. symmetry. exact J.
  - exists (a ++ "/" ++ b ++ "/"). rewrite <- J.
    rewrite !append_assoc. reflexivity.
Qed.

(** C4 (amended). For every input string, [parseDockerImage] returns either
    the invalid result or a reference with every field set.  It is invalid
    exactly when the input is empty, contains [$$cap_], or does not have
    exactly one colon.  Otherwise the tag is the text after the colon and
    the repository is the text that ends right before the colon; either may
    be empty. *)
Theorem parseDockerImage_result (raw : string) :
  match parseDockerImage raw with
  | None =>
      raw = "" \/ includes "$$cap_" raw = true \/ count_char ":" raw <> 1%nat
  | Some r =>
      raw <> "" /\ includes "$$cap_" raw = false /\ count_char ":" raw = 1%nat
      /\ Image.full r = raw
      /\ (exists lead,
            raw = lead ++ Image.repository r ++ ":" ++ Image.currentVersion r)
      /\ count_char ":" (Image.currentVersion r) = O
      /\ Image.fullName r = Image.namespace r ++ "/" ++ Image.repository r
      /\ Image.isOfficial r = String.eqb (Image.namespace r) "library"
  end.
Proof.
  unfold parseDockerImage, truthy.
  destruct (String.eqb_spec raw "") as [E|NE]; simpl; [auto|].
  destruct (includes "$$cap_" raw) eqn:I; [auto|].
  pose proof (length_split_on ":" raw) as L.
  pose proof (concat_split_on ":" raw) as J.
  pose proof (split_on_pieces ":" raw) as P.
  destruct (split_on (is_char ":") raw) as [|imageName [|version [|x l]]];
    simpl in L, J; try (right; right; lia).
  pose proof (image_name_parts imageName) as N.
  destruct (match split_on (is_char "/") imageName with
            | [] => _ | _ => _ end) as [[registry namespace] repository].
  destruct N as [lead N]. simpl.
  repeat split; auto; try lia.
  - exists lead. rewrite <- J, N, append_assoc. reflexivity.
  - inversion P as [|? ? _ P']; subst. inversion P'; subst. assumption.
Qed.

(** ** The resolver *)

(** What a round of the service loop has established when it pushes. *)
Lemma resolve_service_pushed (variables : Obj.t) (appBaseName serviceName : string)
    (service : Doc.service) (s : Service.t) :
  resolve_service variables appBaseName serviceName service = Some s ->
  Service.serviceName s = serviceName
  /\ Doc.image service = Some (Service.originalImage s)
  /\ Service.resolvedImage s = resolve_image variables (Service.originalImage s)
  /\ includes "$$" (Service.resolvedImage s) = false
  /\ parseDockerImage (Service.resolvedImage s) = Some (Service.parsed s).
Proof.
  unfold resolve_service.
  destruct (Doc.image service) as [imageRef|]; [|discriminate].
  destruct (negb (truthy (Str imageRef))); [discriminate|].
  destruct (negb _); [discriminate|].
  destruct (includes "$$" imageRef) eqn:V; simpl.
  - destruct (includes "$$" (resolve_image variables imageRef)) eqn:R;
      [discriminate|].
    destruct (parseDockerImage _) eqn:P; [|discriminate].
    intros H; inversion H; subst; simpl. auto.
  - destruct (parseDockerImage _) eqn:P; [|discriminate].
    intros H; inversion H; subst; simpl.
    unfold resolve_image in *. rewrite V in *. auto.
Qed.

Lemma resolve_services_origin (variables : Obj.t) (appBaseName : string)
    (entries : list (string * Doc.service)) (s : Service.t) :
  In s (resolve_services variables appBaseName entries) ->
  exists serviceName service,
    In (serviceName, service) entries
    /\ resolve_service variables appBaseName serviceName service = Some s.
Proof.
  induction entries as [|[n svc] rest IH]; simpl; [tauto|].
  destruct (resolve_service variables appBaseName n svc) as [s'|] eqn:E.
  - intros [->|H].
    + exists n, svc. auto.
    + destruct (IH H) as (n' & svc' & I & R). exists n', svc'. auto.
  - intros H. destruct (IH H) as (n' & svc' & I & R). exists n', svc'. auto.
Qed.

Lemma resolve_services_no_marker (variables : Obj.t) (appBaseName : string)
    (entries : list (string * Doc.service)) (s : Service.t) :
  In s (resolve_services variables appBaseName entries) ->
  Service.resolvedImage s = resolve_image variables (Service.originalImage s)
  /\ includes "$$" (Service.resolvedImage s) = false.
Proof.
  intros H. destruct (resolve_services_origin _ _ _ _ H) as (n & svc & _ & R).
  apply resolve_service_pushed in R. tauto.
Qed.

(** C6. For every template document the resolver processes: when the
    placeholder marker [$$] (and so also when [$$cap_]) is still present in a
    service's image string after all substitutions, the round of the loop
    for that service ends without a parsed reference, the service is not
    among the resolved services, and no resolved service has the marker in
    its resolved image. *)
Theorem unresolved_service_excluded (data : Doc.t) (appBaseName : string)
    (config : Config.t) (entries : list (string * Doc.service))
    (serviceName imageRef : string) (service : Doc.service) :
  extractAppConfig data appBaseName = Some config ->
  Doc.services data = Some entries ->
  In (serviceName, service) entries ->
  Doc.image service = Some imageRef ->
  includes "$$" (resolve_image (Config.variables config) imageRef) = true ->
  resolve_service (Config.variables config) appBaseName serviceName service = None
  /\ (forall s, In s (Config.services config) ->
        ~ (Service.serviceName s = serviceName /\ Service.originalImage s = imageRef))
  /\ (forall s, In s (Config.services config) ->
        includes "$$" (Service.resolvedImage s) = false
        /\ includes "$$cap_" (Service.resolvedImage s) = false).
Proof.
  unfold extractAppConfig. intros X S I Img M. rewrite S in X.
  inversion X; subst; clear X. simpl in *.
  set (variables := build_variables (Doc.variables data) []) in *.
  split; [|split].
  - destruct (resolve_service variables appBaseName serviceName service) as [s|] eqn:R;
      [|reflexivity].
    apply resolve_service_pushed in R. destruct R as (_ & O & Rv & N & _).
    rewrite Img in O. inversion O; subst. congruence.
  - intros s H [_ O]. apply resolve_services_no_marker in H.
    destruct H as [Rv N]. subst. congruence.
  - intros s H. apply resolve_services_no_marker in H. destruct H as [_ N].
    split; [exact N|].
    destruct (includes "$$cap_" (Service.resolvedImage s)) eqn:C; [|reflexivity].
    apply includes_cap_marker in C. congruence.
Qed.

Lemma unresolved_service_excluded_witness :
  resolve_service [] "wordpress" "$$cap_appname"
    (Doc.make_service (Some "wordpress:$$cap_wp_version")) = None
  /\ (forall s, In s [] ->
        ~ (Service.serviceName s = "$$cap_appname"
           /\ Service.originalImage s = "wordpress:$$cap_wp_version"))
  /\ (forall s, In s [] ->
        includes "$$" (Service.resolvedImage s) = false
        /\ includes "$$cap_" (Service.resolvedImage s) = false).
Proof.
  apply (unresolved_service_excluded undeclared_variable_document "wordpress"
           (Config.make [] [])
           [("$$cap_appname", Doc.make_service (Some "wordpress:$$cap_wp_version"))]
           "$$cap_appname" "wordpress:$$cap_wp_version"
           (Doc.make_service (Some "wordpress:$$cap_wp_version"))).
  - reflexivity.
  - reflexivity.
  - left. reflexivity.
  - reflexivity.
  - reflexivity.
Defined.

(** C3 at a failing input.  The image of the main service names the
    declared variable [$$cap_ver] twice.  The loop of the resolver calls
    [replace] once for the id, which replaces its first occurrence only: the
    second occurrence stays, where replacing every occurrence gives
    ["myorg/app-2.1:2.1"], and the service is dropped as unresolved. *)
Theorem resolver_replaces_first_occurrence_only :
  build_variables (Doc.variables repeated_variable_document) [] = [("$$cap_ver", "2.1")]
  /\ includes "$$" "myorg/app-$$cap_ver:$$cap_ver" = true
  /\ resolve_image [("$$cap_ver", "2.1")] "myorg/app-$$cap_ver:$$cap_ver"
     = "myorg/app-2.1:$$cap_ver"
  /\ Spec.resolve "myorg/app-$$cap_ver:$$cap_ver" [("$$cap_ver", "2.1")]
     = ("myorg/app-2.1:2.1", true)
  /\ extractAppConfig repeated_variable_document "app"
     = Some (Config.make [] [("$$cap_ver", "2.1")]).
Proof.
  repeat split; vm_compute; reflexivity.
Qed.

(** ** The string form of a number *)

Lemma digit_char_after_zero (d : Z) :
  1 <= d <= 9 -> Ascii.compare "0" (digit_char d) = Lt.
Proof.
  intros H.
  assert (C : d = 1 \/ d = 2 \/ d = 3 \/ d = 4 \/ d = 5 \/ d = 6 \/ d = 7
              \/ d = 8 \/ d = 9) by lia.
  repeat (destruct C as [->|C]; [reflexivity|]). subst. reflexivity.
Qed.

(** The digits of a positive integer start with a digit other than 0. *)
Lemma digits_from_head (fuel : nat) (n : Z) (acc : string) :
  0 < n < 2 ^ Z.of_nat fuel ->
  exists c rest, digits_from fuel n acc = String c rest
                 /\ Ascii.compare "0" c = Lt.
Proof.
  revert n acc. induction fuel as [|fuel IH]; intros n acc [Hpos Hlt].
  - simpl in Hlt. lia.
  - cbn [digits_from]. destruct (Z.ltb_spec n 10) as [Small|Big].
    + exists (digit_char (n mod 10)), acc. split; [reflexivity|].
      apply digit_char_after_zero. rewrite Z.mod_small; lia.
    + apply IH. split.
      * apply Z.div_str_pos. lia.
      * rewrite Nat2Z.inj_succ, Z.pow_succ_r in Hlt by lia.
        apply Z.div_lt_upper_bound; lia.
Qed.

Lemma decimal_head (n : Z) :
  0 < n ->
  exists c rest, decimal n = String c rest /\ Ascii.compare "0" c = Lt.
Proof.
  intros Hpos. unfold decimal. apply digits_from_head.
  split; [exact Hpos|].
  rewrite Nat2Z.inj_succ, Z2Nat.id by apply Z.log2_nonneg.
  apply Z.log2_spec, Hpos.
Qed.

Lemma shortest_from_positive (fuel k n : nat) (x : Z) :
  0 < x -> 0 < shortest_from fuel k n x.
Proof.
  intros Hx. revert k. induction fuel as [|fuel IH]; intros k; simpl; [exact Hx|].
  set (p := 10 ^ Z.of_nat (n - k)).
  assert (Hp : 0 < p) by (apply Z.pow_pos_nonneg; lia).
  assert (Hq : 0 <= x / p) by (apply Z.div_pos; lia).
  assert (Hlo : 0 <= x / p * p) by nia.
  assert (Hok : number_eqb (to_number (x / p * p)) (Fin x) = true -> 0 < x / p * p).
  { intros E. destruct (Z.eq_dec (x / p * p) 0) as [Z0|]; [|lia].
    rewrite Z0 in E. change (to_number 0) with (Fin 0) in E.
    cbn [number_eqb] in E. apply Z.eqb_eq in E. lia. }
  destruct (number_eqb (to_number (x / p * p)) (Fin x)) eqn:Elo;
    destruct (number_eqb (to_number (x / p * p + p)) (Fin x)); simpl;
    repeat match goal with
           | |- context [if ?c then _ else _] => destruct c
           end;
    try (apply Hok; reflexivity); try lia; apply IH.
Qed.

Lemma shortest_positive (x : Z) : 0 < x -> 0 < shortest x.
Proof.
  intros Hx. unfold shortest. destruct (x <? 2 ^ 53); [exact Hx|].
  apply shortest_from_positive, Hx.
Qed.

Lemma strip_trailing_zeros_head (c : ascii) (rest : string) :
  Ascii.compare "0" c = Lt ->
  exists rest', strip_trailing_zeros (String c rest) = String c rest'.
Proof.
  intros Hc. cbn [strip_trailing_zeros].
  destruct (strip_trailing_zeros rest) as [|d t]; [|eauto].
  destruct (Ascii.eqb_spec c "0") as [->|_]; [discriminate Hc|eauto].
Qed.

Lemma positive_to_string_head (x : Z) :
  0 < x ->
  exists c rest, positive_to_string x = String c rest
                 /\ Ascii.compare "0" c = Lt.
Proof.
  intros Hx. unfold positive_to_string.
  destruct (decimal_head (shortest x) (shortest_positive x Hx)) as (c & rest & E & Hc).
  rewrite E. destruct (shortest x <? 10 ^ 21); [eauto|].
  destruct (strip_trailing_zeros_head c rest Hc) as (rest' & S').
  rewrite S'. destruct rest'; eauto.
Qed.

Lemma str_lt_head (c d : ascii) (s t : string) :
  Ascii.compare c d = Lt ->
  str_lt (String c s) (String d t) = true /\ str_lt (String d t) (String c s) = false.
Proof.
  intros H. unfold str_lt. cbn [String.compare].
  rewrite (Ascii.compare_antisym d c), H. simpl. auto.
Qed.

(** Against the string ["0"], the string form of a number compares the way
    the number compares against zero. *)
Lemma zero_string_order (b : number) :
  b <> NaN ->
  str_lt "0" (number_to_string b) = num_lt (Fin 0) b
  /\ str_lt (number_to_string b) "0" = num_lt b (Fin 0).
Proof.
  intros Hb. destruct b as [|z| |]; [congruence| |split; reflexivity..].
  cbn [number_to_string num_lt].
  destruct (Z.eqb_spec z 0) as [->|Hz]; [split; reflexivity|].
  destruct (Z.ltb_spec z 0) as [Neg|Pos].
  - replace (0 <? z) with false by (symmetry; apply Z.ltb_ge; lia).
    split; reflexivity.
  - destruct (positive_to_string_head z) as (c & rest & E & Hc); [lia|].
    rewrite E. destruct (str_lt_head "0" c "" rest Hc) as [L G].
    rewrite L, G. split; [symmetry; apply Z.ltb_lt; lia|reflexivity].
Qed.

(** ** The comparator against the position-wise algorithm *)

Lemma str_lt_irrefl (s : string) : str_lt s s = false.
Proof.
  destruct (str_lt s s) eqn:E; [|reflexivity].
  pose proof (str_lt_asym _ _ E). congruence.
Qed.

(** A round of the loop decides as the algorithm does at that position. *)
Lemma compare_position_tokens (parts1 parts2 : list value) (i : nat)
    (t1 t2 : @Spec.token number) :
  reads_as (or_else (at_index parts1 i) (Num (Fin 0))) t1 ->
  reads_as (or_else (at_index parts2 i) (Num (Fin 0))) t2 ->
  compare_position parts1 parts2 i
  = round_of (Spec.compare_tokens num_lt number_to_string t1 t2).
Proof.
  unfold compare_position.
  generalize (or_else (at_index parts1 i) (Num (Fin 0))) as v1.
  generalize (or_else (at_index parts2 i) (Num (Fin 0))) as v2.
  intros v2 v1 R1 R2. cbv zeta. unfold num_gt, str_gt.
  assert (Dec : forall gt lt : bool,
             (if gt then Some 1 else if lt then Some (-1) else None)
             = round_of (if gt then 1 else if lt then -1 else 0)).
  { intros [] []; reflexivity. }
  destruct t1 as [a|s1], t2 as [b|s2]; simpl in R1, R2.
  - destruct R1 as [[-> Ha]|[-> ->]], R2 as [[-> Hb]|[-> ->]];
      cbn [Spec.compare_tokens to_string].
    + apply Dec.
    + destruct (zero_string_order a Ha) as [L G]. rewrite L, G.
      change (number_to_string (Fin 0)) with "0". apply Dec.
    + destruct (zero_string_order b Hb) as [L G]. rewrite L, G.
      change (number_to_string (Fin 0)) with "0". apply Dec.
    + reflexivity.
  - subst v2. destruct R1 as [[-> Ha]|[-> ->]]; cbn; apply Dec.
  - subst v1. destruct R2 as [[-> Hb]|[-> ->]]; cbn; apply Dec.
  - subst. cbn. apply Dec.
Qed.

(** Reading a token that is present, and a position that is missing. *)
Lemma plain_token_reads (t : string) (rest : list string) (i : nat) :
  Spec.plain_token t = true ->
  reads_as (or_else (at_index (map version_part (t :: rest)) 0) (Num (Fin 0)))
           (Spec.parsed_token t).
Proof.
  unfold Spec.plain_token, Spec.parsed_token. cbn [map at_index nth_error].
  unfold version_part, or_else. intros H.
  apply andb_prop in H. destruct H as [Hne Hz].
  destruct (parseInt t) as [|z| |] eqn:P; cbn [truthy truthy_number].
  - rewrite Hne. reflexivity.
  - cbn [number_eqb] in Hz. destruct (Z.eqb_spec z 0) as [->|Nz]; simpl.
    + apply String.eqb_eq in Hz. subst t. right. split; reflexivity.
    + apply Z.eqb_neq in Nz. rewrite ?Nz. simpl. rewrite ?Nz. simpl.
      left. split; [reflexivity|discriminate].
  - left. split; [reflexivity|discriminate].
  - left. split; [reflexivity|discriminate].
Qed.

Lemma missing_reads :
  reads_as (or_else (at_index [] 0) (Num (Fin 0))) (Spec.TNum (Fin 0)).
Proof.
  left. split; [reflexivity|discriminate].
Qed.

(** Moving on by one index is dropping the first element of both arrays. *)
Lemma compare_loop_shift (parts1 parts2 : list value) (remaining i : nat) :
  compare_loop parts1 parts2 (S i) remaining
  = compare_loop (tl parts1) (tl parts2) i remaining.
Proof.
  revert i. induction remaining as [|n IH]; intros i; [reflexivity|].
  cbn [compare_loop]. rewrite IH.
  replace (compare_position parts1 parts2 (S i))
    with (compare_position (tl parts1) (tl parts2) i); [reflexivity|].
  unfold compare_position, at_index.
  destruct parts1, parts2; cbn [tl nth_error]; destruct i; reflexivity.
Qed.

Lemma pad_succ {num : Type} (zero : num) (n : nat) (l : list Spec.token) :
  (List.length l <= S n)%nat ->
  Spec.pad zero (S n) l = hd (Spec.TNum zero) l :: Spec.pad zero n (tl l).
Proof.
  unfold Spec.pad. destruct l as [|t l]; simpl; intros H;
    [rewrite Nat.sub_0_r|]; reflexivity.
Qed.

Lemma first_difference_cons {num : Type} (lt : num -> num -> bool)
    (show : num -> string) (t1 t2 : Spec.token) (rest : list (Spec.token * Spec.token)) :
  Spec.first_difference lt show ((t1, t2) :: rest)
  = match round_of (Spec.compare_tokens lt show t1 t2) with
    | Some r => r
    | None => Spec.first_difference lt show rest
    end.
Proof.
  cbn [Spec.first_difference]. unfold round_of.
  destruct (Spec.compare_tokens lt show t1 t2 =? 0); reflexivity.
Qed.

(** The loop over [n] positions is the first difference over the two padded
    token sequences. *)
Lemma compare_loop_positionwise (n : nat) (l1 l2 : list string) :
  (List.length l1 <= n)%nat -> (List.length l2 <= n)%nat ->
  forallb Spec.plain_token l1 = true -> forallb Spec.plain_token l2 = true ->
  compare_loop (map version_part l1) (map version_part l2) 0 n
  = Spec.first_difference num_lt number_to_string
      (combine (Spec.pad (Fin 0) n (map Spec.parsed_token l1))
               (Spec.pad (Fin 0) n (map Spec.parsed_token l2))).
Proof.
  revert l1 l2. induction n as [|n IH]; intros l1 l2 L1 L2 P1 P2.
  - destruct l1, l2; simpl in L1, L2; try lia. reflexivity.
  - rewrite !pad_succ by (rewrite length_map; assumption).
    cbn [combine]. rewrite first_difference_cons.
    cbn [compare_loop]. rewrite compare_loop_shift.
    assert (R1 : reads_as (or_else (at_index (map version_part l1) 0) (Num (Fin 0)))
                   (hd (Spec.TNum (Fin 0)) (map Spec.parsed_token l1))).
    { destruct l1 as [|t l1]; [apply missing_reads|].
      simpl in P1. apply andb_prop in P1.
      apply (plain_token_reads t l1 0), P1. }
    assert (R2 : reads_as (or_else (at_index (map version_part l2) 0) (Num (Fin 0)))
                   (hd (Spec.TNum (Fin 0)) (map Spec.parsed_token l2))).
    { destruct l2 as [|t l2]; [apply missing_reads|].
      simpl in P2. apply andb_prop in P2.
      apply (plain_token_reads t l2 0), P2. }
    rewrite (compare_position_tokens _ _ 0 _ _ R1 R2).
    destruct (round_of _); [reflexivity|].
    replace (tl (map version_part l1)) with (map version_part (tl l1))
      by (destruct l1; reflexivity).
    replace (tl (map version_part l2)) with (map version_part (tl l2))
      by (destruct l2; reflexivity).
    replace (tl (map Spec.parsed_token l1)) with (map Spec.parsed_token (tl l1))
      by (destruct l1; reflexivity).
    replace (tl (map Spec.parsed_token l2)) with (map Spec.parsed_token (tl l2))
      by (destruct l2; reflexivity).
    apply IH.
    + destruct l1; simpl in *; lia.
    + destruct l2; simpl in *; lia.
    + destruct l1; simpl in *; [reflexivity|]. apply andb_prop in P1. tauto.
    + destruct l2; simpl in *; [reflexivity|]. apply andb_prop in P2. tauto.
Qed.

Lemma num_lt_irrefl (a : number) : num_lt a a = false.
Proof.
  destruct a; simpl; try reflexivity. apply Z.ltb_irrefl.
Qed.

Lemma first_difference_diagonal (l : list (@Spec.token number)) :
  Spec.first_difference num_lt number_to_string (combine l l) = 0.
Proof.
  induction l as [|t l IH]; [reflexivity|].
  cbn [combine]. rewrite first_difference_cons.
  replace (Spec.compare_tokens num_lt number_to_string t t) with 0; [exact IH|].
  destruct t; cbn; rewrite ?num_lt_irrefl, ?str_lt_irrefl; reflexivity.
Qed.

(** C1, as stated, fails: the token [9rc1] is not purely numeric, so the
    algorithm of section 4.2 compares it as a string with [10] and puts
    [3.9rc1] after [3.10]; the code reads the number 9 at its start and puts
    it before. *)
Lemma compareVersions_numeric_prefix_token :
  compareVersions "3.9rc1" "3.10" = -1
  /\ Spec.compareVersions "3.9rc1" "3.10" = 1
  /\ compareVersions "3.9rc1" "3.10" <> Spec.compareVersions "3.9rc1" "3.10".
Proof.
  repeat split; vm_compute; congruence.
Qed.

(** Where the comparator leaves even the amended algorithm: a token of
    value zero that is not written [0] is kept as a string, and an empty
    token counts as the number zero. *)
Example compareVersions_zero_and_empty_tokens :
  compareVersions "1.00" "1.0" = 1
  /\ Spec.compareVersions_parsed "1.00" "1.0" = 0
  /\ compareVersions "1." "1" = 0
  /\ Spec.compareVersions_parsed "1." "1" = -1.
Proof.
  repeat split; vm_compute; reflexivity.
Qed.

(** C1 (amended). For version strings in which no token is empty and a token
    of value zero is written [0], [compareVersions] implements the algorithm
    of section 4.2 with the integer conversion done by [parseInt]: one
    leading [v] is stripped, the rest is split on [.] and [-], a token at
    whose start [parseInt] finds a number is numeric with that value and any
    other token is a string token, missing trailing tokens count as 0, and
    positions are compared in order, numerically when both tokens are
    numeric and otherwise on their string forms, the first unequal position
    deciding and 0 being returned when all are equal. *)
Theorem compareVersions_positionwise (a b : string) :
  Spec.plain_version a = true ->
  Spec.plain_version b = true ->
  compareVersions a b = Spec.compareVersions_parsed a b.
Proof.
  intros Pa Pb. unfold compareVersions, Spec.compareVersions_parsed, Spec.positionwise.
  destruct (String.eqb_spec a b) as [->|_].
  - symmetry. apply first_difference_diagonal.
  - unfold version_parts. fold (Spec.tokens a) (Spec.tokens b).
    rewrite !length_map. apply compare_loop_positionwise; auto; lia.
Qed.

Lemma compareVersions_positionwise_witness :
  compareVersions "v1.2.0-beta" "1.10.0" = Spec.compareVersions_parsed "v1.2.0-beta" "1.10.0".
Proof.
  apply (compareVersions_positionwise "v1.2.0-beta" "1.10.0"); reflexivity.
Defined.

(** ** The classifier *)

Lemma type_part_number (t : string) :
  to_num (type_part t)
  = (let n := parseInt t in if truthy_number n then n else Fin 0).
Proof.
  unfold type_part, or_else. cbn [truthy].
  destruct (truthy_number (parseInt t)); reflexivity.
Qed.

(** *** Tokens carry no minus sign, so no position is negative *)

Lemma split_on_none_of (sep : ascii -> bool) (s : string) :
  Forall (fun t => none_of sep t = true) (split_on sep s).
Proof.
  induction s as [|c s IH]; cbn [split_on].
  - repeat constructor.
  - destruct (sep c) eqn:E.
    + constructor; [reflexivity|exact IH].
    + destruct (split_on sep s) as [|t ts].
      * repeat constructor. cbn. now rewrite E.
      * inversion IH; subst. constructor; [|assumption].
        cbn. rewrite E. assumption.
Qed.

Lemma trim_start_none_of (sep : ascii -> bool) (s : string) :
  none_of sep s = true -> none_of sep (trim_start s) = true.
Proof.
  induction s as [|c s IH]; cbn [trim_start]; [auto|].
  destruct (is_space c); [|auto].
  cbn [none_of]. intros H. apply andb_prop in H. apply IH, H.
Qed.

Lemma read_sign_no_dash (s : string) :
  none_of dot_or_dash s = true -> fst (read_sign s) = false.
Proof.
  destruct s as [|c t]; [reflexivity|]. cbn [none_of read_sign].
  unfold dot_or_dash at 1. intros H. apply andb_prop in H. destruct H as [H _].
  rewrite (Ascii.eqb_sym c "."), (Ascii.eqb_sym c "-") in H.
  destruct (Ascii.eqb "-" c) eqn:D.
  - rewrite orb_true_r in H. discriminate.
  - rewrite (Ascii.eqb_sym c "-"), D.
    destruct (Ascii.eqb c "+"); reflexivity.
Qed.

Lemma read_radix_positive (s : string) : 0 < fst (read_radix s).
Proof.
  unfold read_radix. destruct s as [|c [|d t]]; cbn; try lia.
  destruct (_ && _); cbn; lia.
Qed.

Lemma digit_value_nonneg (radix : Z) (c : ascii) (d : Z) :
  digit_value radix c = Some d -> 0 <= d.
Proof.
  unfold digit_value. set (n := Z.of_N (N_of_ascii c)).
  destruct ((48 <=? n) && (n <=? 57)) eqn:A.
  - apply andb_prop in A. destruct A as [A _]. apply Z.leb_le in A.
    destruct (n - 48 <? radix); intros H; inversion H; lia.
  - destruct ((97 <=? n) && (n <=? 102)) eqn:B.
    + apply andb_prop in B. destruct B as [B _]. apply Z.leb_le in B.
      destruct (n - 87 <? radix); intros H; inversion H; lia.
    + destruct ((65 <=? n) && (n <=? 70)) eqn:C; [|discriminate].
      apply andb_prop in C. destruct C as [C _]. apply Z.leb_le in C.
      destruct (n - 55 <? radix); intros H; inversion H; lia.
Qed.

Lemma read_digits_nonneg (radix : Z) (s : string) (acc : option Z) (m : Z) :
  0 < radix ->
  (forall a, acc = Some a -> 0 <= a) ->
  read_digits radix s acc = Some m -> 0 <= m.
Proof.
  intros Hr. revert acc. induction s as [|c s IH]; intros acc Hacc; cbn [read_digits].
  - apply Hacc.
  - destruct (digit_value radix c) as [d|] eqn:D; [|apply Hacc].
    apply IH. intros a Ha. inversion Ha; subst.
    pose proof (digit_value_nonneg _ _ _ D).
    destruct acc as [a0|]; [specialize (Hacc a0 eq_refl)|]; nia.
Qed.

Lemma to_number_nonneg (m : Z) :
  0 <= m -> num_lt (to_number m) (Fin 0) = false.
Proof.
  intros Hm. unfold to_number. cbv zeta.
  destruct (Z.abs m <? 2 ^ 53); [cbn [num_lt]; apply Z.ltb_ge, Hm|].
  set (e := Z.log2 (Z.abs m) - 52).
  set (q := Z.shiftr (Z.abs m) e).
  match goal with
  | |- context [if ?c then q + 1 else q] => set (q' := if c then q + 1 else q)
  end.
  assert (Hq : 0 <= q) by (apply Z.shiftr_nonneg; lia).
  assert (Hq' : 0 <= q') by (unfold q'; destruct (_ || _); lia).
  assert (Hv : 0 <= Z.shiftl q' e) by (apply Z.shiftl_nonneg; exact Hq').
  destruct (2 ^ 1024 <=? Z.shiftl q' e).
  - replace (m <? 0) with false by (symmetry; apply Z.ltb_ge; lia). reflexivity.
  - cbn [num_lt]. apply Z.ltb_ge. pose proof (Z.sgn_nonneg m). nia.
Qed.

Lemma parseInt_nonneg (t : string) :
  none_of dot_or_dash t = true -> num_lt (parseInt t) (Fin 0) = false.
Proof.
  intros H. unfold parseInt.
  pose proof (read_sign_no_dash _ (trim_start_none_of _ _ H)) as Hs.
  destruct (read_sign (trim_start t)) as [negative s2]. cbn in Hs. subst negative.
  pose proof (read_radix_positive s2) as Hr.
  destruct (read_radix s2) as [radix s3]. cbn in Hr.
  destruct (read_digits radix s3 None) as [m|] eqn:D; [|reflexivity].
  apply to_number_nonneg.
  apply (read_digits_nonneg radix s3 None m Hr); [discriminate|exact D].
Qed.

Lemma parsed_position_nonneg (v : string) (i : nat) :
  num_gt (Fin 0) (Spec.parsed_position v i) = false.
Proof.
  unfold num_gt, Spec.parsed_position, Spec.tokens.
  destruct (nth_error _ i) as [t|] eqn:N; [|reflexivity].
  assert (Ht : none_of dot_or_dash t = true).
  { pose proof (split_on_none_of dot_or_dash (strip_v v)) as F.
    rewrite Forall_forall in F. apply F. eapply nth_error_In, N. }
  cbv zeta. destruct (truthy_number (parseInt t)); [|reflexivity].
  apply parseInt_nonneg, Ht.
Qed.

(** One comparison of the classifier, when the position is not missing in
    [current] alone. *)
Lemma greater_at_position (current latest : string) (i : nat) :
  (List.length (Spec.tokens latest) <= List.length (Spec.tokens current)
   \/ i < List.length (Spec.tokens current))%nat ->
  greater (at_index (type_parts latest) i) (at_index (type_parts current) i)
  = num_gt (Spec.parsed_position latest i) (Spec.parsed_position current i).
Proof.
  intros H. pose proof (parsed_position_nonneg current i) as Nn.
  revert H Nn.
  unfold greater, at_index, type_parts, Spec.parsed_position. fold (Spec.tokens latest).
  fold (Spec.tokens current). rewrite !nth_error_map.
  destruct (nth_error (Spec.tokens latest) i) as [tl|] eqn:Nl,
           (nth_error (Spec.tokens current) i) as [tc|] eqn:Nc;
    cbn [option_map]; intros H Nn.
  - rewrite !type_part_number. reflexivity.
  - apply nth_error_None in Nc.
    assert (Some tl = None) as X; [|discriminate X].
    rewrite <- Nl. apply nth_error_None. lia.
  - rewrite Nn. destruct (to_num (type_part tc)); reflexivity.
  - reflexivity.
Qed.

(** C2, as stated, fails: position 2 of [1.0.1rc] is not numeric, so the
    classifier of the claim takes 0 for it and answers [other]; the code
    reads the number 1 at its start and answers [patch]. *)
Lemma determineUpdateType_numeric_prefix_position :
  compareVersions "1.0.1rc" "1.0.0" = 1
  /\ determineUpdateType "1.0.0" "1.0.1rc" = patch
  /\ Spec.classify "1.0.0" "1.0.1rc" = other.
Proof.
  repeat split; vm_compute; reflexivity.
Qed.

(** C2 (amended). For every call in which [current] has each of the first
    three positions that [candidate] has, the classifier strips a leading
    [v], splits on [.] and [-], takes at each of the first three positions
    the number [parseInt] finds at the start of the token, 0 when it finds
    none or the position is missing, and returns [major] if candidate's
    position-0 number exceeds current's, else [minor] if its position-1
    number does, else [patch] if its position-2 number does, else
    [other]. *)
Theorem determineUpdateType_parsed_positions (current candidate : string) :
  (List.length (Spec.tokens candidate) <= List.length (Spec.tokens current)
   \/ 3 <= List.length (Spec.tokens current))%nat ->
  determineUpdateType current candidate = Spec.classify_parsed current candidate.
Proof.
  intros H.
  unfold determineUpdateType, Spec.classify_parsed, Spec.classify_with.
  cbv zeta. rewrite !greater_at_position by lia. reflexivity.
Qed.

Lemma determineUpdateType_parsed_positions_witness :
  determineUpdateType "1.21" "v1.22" = Spec.classify_parsed "1.21" "v1.22".
Proof.
  apply (determineUpdateType_parsed_positions "1.21" "v1.22").
  left. vm_compute. lia.
Defined.

(** Outside that domain: the comparator orders [13.1] strictly after [13],
    and with 0 for the missing position 1 of [13] the answer is [minor]; in
    the code the missing position is [undefined], the comparison with it is
    false, and the answer is [other]. *)
Example determineUpdateType_missing_position :
  compareVersions "13.1" "13" = 1
  /\ determineUpdateType "13" "13.1" = other
  /\ Spec.classify "13" "13.1" = minor
  /\ at_index (type_parts "13") 1 = Undefined
  /\ greater (at_index (type_parts "13.1") 1) (at_index (type_parts "13") 1) = false.
Proof.
  repeat split; vm_compute; reflexivity.
Qed.

(** * Further properties of the checkers *)

(** ** The comparator and the detector on equal versions *)

Lemma compare_position_same (parts : list value) (i : nat) :
  compare_position parts parts i = None.
Proof.
  unfold compare_position.
  destruct (or_else (at_index parts i) (Num (Fin 0))) as [|a|s];
    cbv zeta; unfold num_gt, str_gt;
    rewrite ?num_lt_irrefl, ?str_lt_irrefl; reflexivity.
Qed.

Lemma compare_loop_same (parts : list value) (remaining i : nat) :
  compare_loop parts parts i remaining = 0.
Proof.
  revert i. induction remaining as [|n IH]; intros i; cbn [compare_loop].
  - reflexivity.
  - rewrite compare_position_same. apply IH.
Qed.

Lemma compareVersions_stripped_equal (a b : string) :
  strip_v a = strip_v b -> compareVersions a b = 0.
Proof.
  intros H. unfold compareVersions. destruct (String.eqb a b); [reflexivity|].
  unfold version_parts. rewrite H. apply compare_loop_same.
Qed.

(** X1. Two version strings that are equal once a leading [v] is stripped
    from each compare as equal: [v1.2.3] and [1.2.3] are the same version
    for the comparator. *)
Theorem compareVersions_leading_v (a b : string) :
  strip_v a = strip_v b -> compareVersions a b = 0.
Proof.
  intros H. unfold compareVersions. destruct (String.eqb a b); [reflexivity|].
  unfold version_parts. rewrite H. apply compare_loop_same.
Qed.

Lemma compareVersions_leading_v_witness :
  compareVersions "v1.2.3" "1.2.3" = 0.
Proof.
  apply (compareVersions_leading_v "v1.2.3" "1.2.3"). reflexivity.
Defined.

(** X2. The detector reports no update when the candidate is the current
    version, with or without a leading [v] on either: the verdict is there
    and its [hasUpdate] is false. *)
Theorem detectUpdate_same_version (current candidate : string) :
  candidate <> "" ->
  strip_v candidate = strip_v current ->
  detectUpdate current (Some candidate)
  = Some (Verdict.make false current candidate None).
Proof.
  intros Hne H. rewrite (detectUpdate_nonempty _ _ Hne).
  rewrite (compareVersions_stripped_equal _ _ H). reflexivity.
Qed.

Lemma detectUpdate_same_version_witness :
  detectUpdate "1.21.0" (Some "v1.21.0")
  = Some (Verdict.make false "1.21.0" "v1.21.0" None).
Proof.
  apply (detectUpdate_same_version "1.21.0" "v1.21.0");
    [discriminate|reflexivity].
Defined.

(** X3. Updates go one way: when the detector reports that [b] is an update
    of [a], it does not report that [a] is an update of [b]. *)
Theorem detectUpdate_one_direction (a b : string) (va vb : Verdict.t) :
  detectUpdate a (Some b) = Some va ->
  detectUpdate b (Some a) = Some vb ->
  Verdict.hasUpdate va = true ->
  Verdict.hasUpdate vb = false.
Proof.
  intros Ha Hb Hu.
  assert (Nb : b <> "").
  { intros ->. discriminate Ha. }
  assert (Na : a <> "").
  { intros ->. discriminate Hb. }
  rewrite (detectUpdate_nonempty _ _ Nb) in Ha.
  rewrite (detectUpdate_nonempty _ _ Na) in Hb.
  inversion Ha; subst va; clear Ha. inversion Hb; subst vb; clear Hb.
  destruct (compareVersions b a >? 0) eqn:E; [|discriminate Hu].
  apply compareVersions_positive in E.
  rewrite (compareVersions_swap a b), E. reflexivity.
Qed.

Lemma detectUpdate_one_direction_witness :
  Verdict.hasUpdate (Verdict.make false "6.7.1" "6.7.0" None) = false.
Proof.
  apply (detectUpdate_one_direction "6.7.0" "6.7.1"
           (Verdict.make true "6.7.0" "6.7.1" (Some patch))
           (Verdict.make false "6.7.1" "6.7.0" None)); reflexivity.
Defined.

(** ** The parser on the three shapes of a reference *)

Lemma count_char_append (c : ascii) (a b : string) :
  count_char c (a ++ b) = (count_char c a + count_char c b)%nat.
Proof.
  induction a as [|d a IH]; simpl; [reflexivity|].
  destruct (Ascii.eqb c d); simpl; now rewrite IH.
Qed.

Lemma split_on_whole (c : ascii) (a : string) :
  count_char c a = O -> split_on (is_char c) a = [a].
Proof.
  induction a as [|d a IH]; cbn [split_on count_char]; [reflexivity|].
  unfold is_char at 1. destruct (Ascii.eqb c d); [discriminate|].
  intros H. rewrite (IH H). reflexivity.
Qed.

(** Splitting at the first separator. *)
Lemma split_on_first (c : ascii) (a b : string) :
  count_char c a = O ->
  split_on (is_char c) (a ++ String c b) = a :: split_on (is_char c) b.
Proof.
  induction a as [|d a IH]; cbn [split_on count_char append].
  - intros _. unfold is_char at 1. now rewrite Ascii.eqb_refl.
  - unfold is_char at 1. destruct (Ascii.eqb c d); [discriminate|].
    intros H. rewrite (IH H). reflexivity.
Qed.

Lemma parseDockerImage_name_tag (imageName tag : string) :
  count_char ":" imageName = O ->
  count_char ":" tag = O ->
  includes "$$cap_" (imageName ++ ":" ++ tag) = false ->
  parseDockerImage (imageName ++ ":" ++ tag)
  = let '(registry, namespace, repository) :=
      match split_on (is_char "/") imageName with
      | [r] => ("docker.io", "library", r)
      | [n; r] => ("docker.io", n, r)
      | reg :: n :: rest => (reg, n, String.concat "/" rest)
      | [] => ("docker.io", "library", imageName)
      end in
    Some (Image.make (imageName ++ ":" ++ tag) registry namespace repository
            (namespace ++ "/" ++ repository) tag
            (String.eqb namespace "library")).
Proof.
  intros Hn Ht Hm. unfold parseDockerImage. rewrite Hm.
  replace (negb (truthy (Str (imageName ++ ":" ++ tag)))) with false.
  - change (imageName ++ ":" ++ tag) with (imageName ++ String ":" tag) at 1.
    rewrite (split_on_first ":" imageName tag Hn), (split_on_whole ":" tag Ht).
    reflexivity.
  - destruct imageName; reflexivity.
Qed.

(** X4. An official image: a name without slash, a colon and a tag parse to
    the default registry, the namespace [library] and the name as
    repository, with the tag as written and [isOfficial] set. *)
Theorem parseDockerImage_official (name tag : string) :
  count_char "/" name = O ->
  count_char ":" name = O ->
  count_char ":" tag = O ->
  includes "$$cap_" (name ++ ":" ++ tag) = false ->
  parseDockerImage (name ++ ":" ++ tag)
  = Some (Image.make (name ++ ":" ++ tag) "docker.io" "library" name
            ("library/" ++ name) tag true).
Proof.
  intros Hs Hn Ht Hm. rewrite (parseDockerImage_name_tag _ _ Hn Ht Hm).
  rewrite (split_on_whole "/" name Hs). reflexivity.
Qed.

Lemma parseDockerImage_official_witness :
  parseDockerImage ("nginx" ++ ":" ++ "1.21")
  = Some (Image.make ("nginx" ++ ":" ++ "1.21") "docker.io" "library" "nginx"
            ("library/" ++ "nginx") "1.21" true).
Proof.
  apply (parseDockerImage_official "nginx" "1.21"); reflexivity.
Defined.

(** X5. A namespaced image [namespace/repository:tag] parses to the default
    registry and to its parts; it is official exactly when the namespace is
    [library]. *)
Theorem parseDockerImage_namespaced (namespace repository tag : string) :
  count_char "/" namespace = O -> count_char ":" namespace = O ->
  count_char "/" repository = O -> count_char ":" repository = O ->
  count_char ":" tag = O ->
  includes "$$cap_" ((namespace ++ "/" ++ repository) ++ ":" ++ tag) = false ->
  parseDockerImage ((namespace ++ "/" ++ repository) ++ ":" ++ tag)
  = Some (Image.make ((namespace ++ "/" ++ repository) ++ ":" ++ tag)
            "docker.io" namespace repository
            (namespace ++ "/" ++ repository) tag
            (String.eqb namespace "library")).
Proof.
  intros Hns Hnc Hrs Hrc Ht Hm.
  rewrite (parseDockerImage_name_tag _ _) by
    (try assumption; rewrite count_char_append; cbn; lia).
  change (namespace ++ "/" ++ repository)
    with (namespace ++ String "/" repository) at 1.
  rewrite (split_on_first "/" namespace repository Hns),
          (split_on_whole "/" repository Hrs).
  reflexivity.
Qed.

Lemma parseDockerImage_namespaced_witness :
  parseDockerImage (("bitnami" ++ "/" ++ "ghost") ++ ":" ++ "5.2.2")
  = Some (Image.make (("bitnami" ++ "/" ++ "ghost") ++ ":" ++ "5.2.2")
            "docker.io" "bitnami" "ghost" ("bitnami" ++ "/" ++ "ghost") "5.2.2"
            (String.eqb "bitnami" "library")).
Proof.
  apply (parseDockerImage_namespaced "bitnami" "ghost" "5.2.2"); reflexivity.
Defined.

(** X6. A reference with a registry, [registry/namespace/repository:tag],
    where the repository may itself contain slashes, parses to exactly
    these parts. *)
Theorem parseDockerImage_with_registry (registry namespace repository tag : string) :
  count_char "/" registry = O -> count_char ":" registry = O ->
  count_char "/" namespace = O -> count_char ":" namespace = O ->
  count_char ":" repository = O ->
  count_char ":" tag = O ->
  includes "$$cap_"
    ((registry ++ "/" ++ namespace ++ "/" ++ repository) ++ ":" ++ tag) = false ->
  parseDockerImage
    ((registry ++ "/" ++ namespace ++ "/" ++ repository) ++ ":" ++ tag)
  = Some (Image.make
            ((registry ++ "/" ++ namespace ++ "/" ++ repository) ++ ":" ++ tag)
            registry namespace repository
            (namespace ++ "/" ++ repository) tag
            (String.eqb namespace "library")).
Proof.
  intros Hgs Hgc Hns Hnc Hrc Ht Hm.
  rewrite (parseDockerImage_name_tag _ _) by
    (try assumption; rewrite !count_char_append; cbn; lia).
  change (registry ++ "/" ++ namespace ++ "/" ++ repository)
    with (registry ++ String "/" (namespace ++ String "/" repository)) at 1.
  rewrite (split_on_first "/" registry _ Hgs),
          (split_on_first "/" namespace repository Hns).
  pose proof (concat_split_on "/" repository) as J.
  destruct (split_on_cons (is_char "/") repository) as (t & ts & E).
  rewrite E in *. cbv zeta. rewrite J. reflexivity.
Qed.

Lemma parseDockerImage_with_registry_witness :
  parseDockerImage (("ghcr.io" ++ "/" ++ "owner" ++ "/" ++ "group/repo") ++ ":" ++ "1.0")
  = Some (Image.make
            (("ghcr.io" ++ "/" ++ "owner" ++ "/" ++ "group/repo") ++ ":" ++ "1.0")
            "ghcr.io" "owner" "group/repo"
            ("owner" ++ "/" ++ "group/repo") "1.0"
            (String.eqb "owner" "library")).
Proof.
  apply (parseDockerImage_with_registry "ghcr.io" "owner" "group/repo" "1.0");
    reflexivity.
Defined.

(** ** The two extractors *)

(** What the parser has checked when it returns a reference. *)
Lemma parseDockerImage_accepts (raw : string) (r : Image.t) :
  parseDockerImage raw = Some r ->
  Image.full r = raw /\ raw <> "" /\ includes "$$cap_" raw = false.
Proof.
  unfold parseDockerImage, truthy.
  destruct (String.eqb_spec raw "") as [E|NE]; cbn [negb]; [discriminate|].
  destruct (includes "$$cap_" raw); [discriminate|].
  destruct (split_on (is_char ":") raw) as [|imageName [|version [|x l]]];
    try discriminate.
  destruct (match split_on (is_char "/") imageName with
            | [] => _ | _ => _ end) as [[registry namespace] repository].
  intros H. inversion H; subst. auto.
Qed.

(** One round of the loop throws exactly on a [null] service. *)
Lemma extract_images_throws (entries : list (string * Yaml.node)) :
  extract_images entries = Throw <-> exists name, In (name, Yaml.Null) entries.
Proof.
  induction entries as [|[n svc] rest IH]; cbn [extract_images].
  - split; [discriminate|intros (x & [])].
  - destruct (Yaml.get svc "image") as [img|] eqn:G; cbn [bind].
    + assert (NotNull : svc <> Yaml.Null) by (intros ->; discriminate).
      assert (Round : (if Yaml.truthy img
                       then match parseDockerImage_node img with
                            | Some parsed =>
                                images <- extract_images rest ;;
                                Normal (Extracted.make parsed n :: images)
                            | None => extract_images rest
                            end
                       else extract_images rest) = Throw
                      <-> extract_images rest = Throw).
      { destruct (Yaml.truthy img); [|reflexivity].
        destruct (parseDockerImage_node img); [|reflexivity].
        destruct (extract_images rest); cbn [bind]; split; congruence. }
      rewrite Round, IH. split.
      * intros (x & H). exists x. right. exact H.
      * intros (x & [H|H]); [inversion H; subst; contradiction|].
        exists x. exact H.
    + split; [intros _|reflexivity].
      exists n. left. destruct svc; try discriminate. reflexivity.
Qed.

(** When the loop ends, it has kept the services whose image is a string
    that the parser accepts. *)
Lemma extract_images_elements (entries : list (string * Yaml.node))
    (images : list Extracted.t) (e : Extracted.t) :
  extract_images entries = Normal images ->
  (In e images <->
   exists service imageRef,
     In (Extracted.serviceName e, service) entries
     /\ Yaml.get service "image" = Normal (Yaml.Text imageRef)
     /\ parseDockerImage imageRef = Some (Extracted.parsed e)).
Proof.
  revert images.
  induction entries as [|[n svc] rest IH]; intros images H;
    cbn [extract_images] in H.
  - inversion H. split; [intros []|intros (s & i & [] & _)].
  - destruct (Yaml.get svc "image") as [img|] eqn:G; cbn [bind] in H;
      [|discriminate].
    assert (Cases :
      (exists ref p images',
         img = Yaml.Text ref /\ parseDockerImage ref = Some p
         /\ extract_images rest = Normal images'
         /\ images = Extracted.make p n :: images')
      \/ (extract_images rest = Normal images
          /\ forall i, img = Yaml.Text i -> parseDockerImage i = None)).
    { destruct (Yaml.truthy img) eqn:T.
      - destruct (parseDockerImage_node img) as [p|] eqn:P.
        + left. destruct img as [|b|ref|items|props]; try discriminate.
          cbn [parseDockerImage_node] in P.
          destruct (extract_images rest) as [images'|]; cbn [bind] in H;
            [|discriminate].
          inversion H. exists ref, p, images'. auto.
        + right. split; [exact H|]. intros i ->. exact P.
      - right. split; [exact H|]. intros i ->. cbn [Yaml.truthy] in T.
        unfold parseDockerImage. rewrite T. reflexivity. }
    destruct Cases as [(ref & p & images' & -> & P & R & ->)|(R & No)].
    + specialize (IH _ R). split.
      * intros [<-|I].
        -- exists svc, ref. cbn. auto.
        -- apply IH in I. destruct I as (s & i & I & G' & P').
           exists s, i. simpl. auto.
      * intros (s & i & [X|I] & G' & P').
        -- inversion X; subst. left. rewrite G in G'. inversion G'; subst.
           destruct e as [pe ne]. cbn in *. congruence.
        -- right. apply IH. exists s, i. auto.
    + specialize (IH _ R). rewrite IH. split.
      * intros (s & i & I & G' & P'). exists s, i. simpl. auto.
      * intros (s & i & [X|I] & G' & P').
        -- inversion X; subst. rewrite G in G'. inversion G'; subst.
           rewrite (No i eq_refl) in P'. discriminate.
        -- exists s, i. auto.
Qed.

(** A value with an entry is truthy. *)
Lemma entries_truthy (services : Yaml.node) (entries : list (string * Yaml.node))
    (x : string * Yaml.node) :
  Yaml.entries services = Normal entries -> In x entries ->
  Yaml.truthy services = true.
Proof.
  destruct services as [|b|s|items|props]; cbn [Yaml.entries Yaml.truthy];
    intros H I; try discriminate; try reflexivity.
  - inversion H; subst. destruct I.
  - destruct s as [|c s]; [|reflexivity]. inversion H; subst. destruct I.
Qed.

(** A [null] among the services empties the result. *)
Lemma extractImagesFromYaml_null_entry (data services : Yaml.node)
    (entries : list (string * Yaml.node)) (name : string) :
  Yaml.get data "services" = Normal services ->
  Yaml.entries services = Normal entries ->
  In (name, Yaml.Null) entries ->
  extractImagesFromYaml (Normal data) = [].
Proof.
  intros G E I. unfold extractImagesFromYaml. cbv zeta. cbn [bind].
  rewrite G. cbn [bind]. rewrite (entries_truthy _ _ _ E I), E. cbn [bind].
  assert (X : extract_images entries = Throw)
    by (apply extract_images_throws; eauto).
  rewrite X. reflexivity.
Qed.

Lemma extractImagesFromYaml_elements (document : completion Yaml.node)
    (e : Extracted.t) :
  In e (extractImagesFromYaml document) <->
  exists data services entries service imageRef,
    document = Normal data
    /\ Yaml.get data "services" = Normal services
    /\ Yaml.entries services = Normal entries
    /\ (forall name, ~ In (name, Yaml.Null) entries)
    /\ In (Extracted.serviceName e, service) entries
    /\ Yaml.get service "image" = Normal (Yaml.Text imageRef)
    /\ parseDockerImage imageRef = Some (Extracted.parsed e).
Proof.
  unfold extractImagesFromYaml. cbv zeta. split.
  - intros I. destruct document as [data|]; cbn [bind] in I; [|contradiction].
    destruct (Yaml.get data "services") as [services|] eqn:G; cbn [bind] in I;
      [|contradiction].
    destruct (Yaml.truthy services) eqn:T; [|contradiction].
    destruct (Yaml.entries services) as [entries|] eqn:E; cbn [bind] in I;
      [|contradiction].
    destruct (extract_images entries) as [images|] eqn:X; [|contradiction].
    apply (extract_images_elements _ _ _ X) in I.
    destruct I as (s & i & I & G' & P).
    exists data, services, entries, s, i.
    refine (conj eq_refl (conj G (conj E (conj _ (conj I (conj G' P)))))).
    intros name N.
    assert (extract_images entries = Throw)
      by (apply extract_images_throws; eauto).
    congruence.
  - intros (data & services & entries & s & i & -> & G & E & NoNull & I & G' & P).
    cbn [bind]. rewrite G. cbn [bind].
    rewrite (entries_truthy _ _ _ E I), E. cbn [bind].
    destruct (extract_images entries) as [images|] eqn:X.
    + apply (extract_images_elements _ _ _ X). exists s, i. auto.
    + apply extract_images_throws in X. destruct X as (name & N).
      destruct (NoNull name N).
Qed.

(** X7. The basic extractor returns exactly the services of the document
    whose image is a string that the parser accepts, each with the parsed
    reference of its image, provided that no service of the document is
    [null]; with a [null] among the services it returns the empty array,
    whatever the other services are. *)
Theorem extractImagesFromYaml_iff (document : completion Yaml.node) :
  (forall e,
     In e (extractImagesFromYaml document) <->
     exists data services entries service imageRef,
       document = Normal data
       /\ Yaml.get data "services" = Normal services
       /\ Yaml.entries services = Normal entries
       /\ (forall name, ~ In (name, Yaml.Null) entries)
       /\ In (Extracted.serviceName e, service) entries
       /\ Yaml.get service "image" = Normal (Yaml.Text imageRef)
       /\ parseDockerImage imageRef = Some (Extracted.parsed e))
  /\ (forall data services entries name,
        document = Normal data ->
        Yaml.get data "services" = Normal services ->
        Yaml.entries services = Normal entries ->
        In (name, Yaml.Null) entries ->
        extractImagesFromYaml document = []).
Proof.
  split.
  - intros e. unfold extractImagesFromYaml. cbv zeta. split.
    + intros I. destruct document as [data|]; cbn [bind] in I; [|contradiction].
      destruct (Yaml.get data "services") as [services|] eqn:G; cbn [bind] in I;
        [|contradiction].
      destruct (Yaml.truthy services) eqn:T; [|contradiction].
      destruct (Yaml.entries services) as [entries|] eqn:E; cbn [bind] in I;
        [|contradiction].
      destruct (extract_images entries) as [images|] eqn:X; [|contradiction].
      apply (extract_images_elements _ _ _ X) in I.
      destruct I as (s & i & I & G' & P).
      exists data, services, entries, s, i.
      refine (conj eq_refl (conj G (conj E (conj _ (conj I (conj G' P)))))).
      intros name N.
      assert (extract_images entries = Throw)
        by (apply extract_images_throws; eauto).
      congruence.
    + intros (data & services & entries & s & i & -> & G & E & NoNull & I & G' & P).
      cbn [bind]. rewrite G. cbn [bind].
      rewrite (entries_truthy _ _ _ E I), E. cbn [bind].
      destruct (extract_images entries) as [images|] eqn:X.
      * apply (extract_images_elements _ _ _ X). exists s, i. auto.
      * apply extract_images_throws in X. destruct X as (name & N).
        destruct (NoNull name N).
  - intros data services entries name -> G E I.
    exact (extractImagesFromYaml_null_entry _ _ _ _ G E I).
Qed.

(** A document with a valid service and a [null] one: the read of
    [service.image] throws on the second, and the first is lost with it. *)
Example extractImagesFromYaml_null_service :
  extractImagesFromYaml
    (Normal (Yaml.Map
       [("services",
         Yaml.Map [("web", Yaml.Map [("image", Yaml.Text "nginx:1.25")]);
                   ("db", Yaml.Null)])])) = []
  /\ exists e,
       extractImagesFromYaml
         (Normal (Yaml.Map
            [("services",
              Yaml.Map [("web", Yaml.Map [("image", Yaml.Text "nginx:1.25")])])]))
       = [e]
       /\ Extracted.serviceName e = "web"
       /\ Image.full (Extracted.parsed e) = "nginx:1.25".
Proof.
  split; [vm_compute; reflexivity|].
  eexists. split; [vm_compute; reflexivity|split; reflexivity].
Qed.

(** X8. The basic extractor never returns a templated image: a service
    whose image contains [$$cap_] is left out, and every image returned is
    free of it. *)
Theorem extractImagesFromYaml_skips_templates (document : completion Yaml.node)
    (data services : Yaml.node) (entries : list (string * Yaml.node))
    (serviceName imageRef : string) (service : Yaml.node) :
  document = Normal data ->
  Yaml.get data "services" = Normal services ->
  Yaml.entries services = Normal entries ->
  In (serviceName, service) entries ->
  Yaml.get service "image" = Normal (Yaml.Text imageRef) ->
  includes "$$cap_" imageRef = true ->
  (forall e, In e (extractImagesFromYaml document) ->
     includes "$$cap_" (Image.full (Extracted.parsed e)) = false)
  /\ ~ (exists e, In e (extractImagesFromYaml document)
                  /\ Extracted.serviceName e = serviceName
                  /\ Image.full (Extracted.parsed e) = imageRef).
Proof.
  intros D G E I Gi M.
  assert (Free : forall e, In e (extractImagesFromYaml document) ->
                   includes "$$cap_" (Image.full (Extracted.parsed e)) = false).
  { intros e H. apply extractImagesFromYaml_elements in H.
    destruct H as (d & sv & en & s & i & _ & _ & _ & _ & _ & _ & P).
    apply parseDockerImage_accepts in P. destruct P as (F & _ & N).
    rewrite F. exact N. }
  split; [exact Free|].
  intros (e & H & _ & F). apply Free in H. congruence.
Qed.

Lemma extractImagesFromYaml_skips_templates_witness :
  (forall e,
     In e (extractImagesFromYaml (Normal (document_node undeclared_variable_document))) ->
     includes "$$cap_" (Image.full (Extracted.parsed e)) = false)
  /\ ~ (exists e,
          In e (extractImagesFromYaml (Normal (document_node undeclared_variable_document)))
          /\ Extracted.serviceName e = "$$cap_appname"
          /\ Image.full (Extracted.parsed e) = "wordpress:$$cap_wp_version").
Proof.
  apply (extractImagesFromYaml_skips_templates
           (Normal (document_node undeclared_variable_document))
           (document_node undeclared_variable_document)
           (Yaml.Map [("$$cap_appname",
                       Yaml.Map [("image", Yaml.Text "wordpress:$$cap_wp_version")])])
           [("$$cap_appname",
             Yaml.Map [("image", Yaml.Text "wordpress:$$cap_wp_version")])]
           "$$cap_appname" "wordpress:$$cap_wp_version"
           (Yaml.Map [("image", Yaml.Text "wordpress:$$cap_wp_version")])).
  - reflexivity.
  - reflexivity.
  - reflexivity.
  - left. reflexivity.
  - reflexivity.
  - reflexivity.
Defined.

Lemma extractAppConfig_service_facts (data : Doc.t) (appBaseName : string)
    (config : Config.t) (s : Service.t) :
  extractAppConfig data appBaseName = Some config ->
  In s (Config.services config) ->
  (Service.serviceName s = "$$cap_appname"
   \/ Service.serviceName s = "$$cap_appname-" ++ appBaseName)
  /\ (exists entries service,
        Doc.services data = Some entries
        /\ In (Service.serviceName s, service) entries
        /\ Doc.image service = Some (Service.originalImage s))
  /\ Service.originalImage s <> ""
  /\ Service.hasVariables s = includes "$$" (Service.originalImage s)
  /\ (Service.hasVariables s = false ->
      Service.resolvedImage s = Service.originalImage s)
  /\ parseDockerImage (Service.resolvedImage s) = Some (Service.parsed s)
  /\ Image.full (Service.parsed s) = Service.resolvedImage s.
Proof.
  unfold extractAppConfig. intros X I.
  destruct (Doc.services data) as [entries|] eqn:S; [|discriminate].
  inversion X; subst; clear X. cbn [Config.services] in I.
  set (variables := build_variables (Doc.variables data) []) in *.
  apply resolve_services_origin in I. destruct I as (n & svc & I & R).
  unfold resolve_service in R.
  destruct (Doc.image svc) as [imageRef|] eqn:D; [|discriminate].
  destruct (truthy (Str imageRef)) eqn:T; cbn [negb] in R; [|discriminate].
  destruct (String.eqb_spec n "$$cap_appname") as [E1|N1];
    [|destruct (String.eqb_spec n ("$$cap_appname-" ++ appBaseName)) as [E2|N2]];
    cbn [orb negb] in R; try discriminate.
  all: destruct (includes "$$" imageRef && _); [discriminate|].
  all: destruct (parseDockerImage (resolve_image variables imageRef)) as [p|] eqn:P;
    [|discriminate].
  all: inversion R; subst s; clear R; cbn.
  all: repeat split; auto.
  all: try (exists entries, svc; auto).
  all: try (intros F; unfold truthy in T; rewrite F in T; discriminate).
  all: try (intros V; unfold resolve_image; rewrite V; reflexivity).
  all: apply parseDockerImage_accepts in P; tauto.
Qed.

(** X9. Every service the template-aware extractor returns is a main
    service of the template (named [$$cap_appname], or that with a dash and
    the base name of the file), comes from the document with a non-empty
    image, has [hasVariables] set exactly when its image contains [$$], is
    resolved to itself when it has no variables, and carries the parsed
    reference of its resolved image. *)
Theorem extractAppConfig_services (data : Doc.t) (appBaseName : string)
    (config : Config.t) (s : Service.t) :
  extractAppConfig data appBaseName = Some config ->
  In s (Config.services config) ->
  (Service.serviceName s = "$$cap_appname"
   \/ Service.serviceName s = "$$cap_appname-" ++ appBaseName)
  /\ (exists entries service,
        Doc.services data = Some entries
        /\ In (Service.serviceName s, service) entries
        /\ Doc.image service = Some (Service.originalImage s))
  /\ Service.originalImage s <> ""
  /\ Service.hasVariables s = includes "$$" (Service.originalImage s)
  /\ (Service.hasVariables s = false ->
      Service.resolvedImage s = Service.originalImage s)
  /\ parseDockerImage (Service.resolvedImage s) = Some (Service.parsed s)
  /\ Image.full (Service.parsed s) = Service.resolvedImage s.
Proof.
  unfold extractAppConfig. intros X I.
  destruct (Doc.services data) as [entries|] eqn:S; [|discriminate].
  inversion X; subst; clear X. cbn [Config.services] in I.
  set (variables := build_variables (Doc.variables data) []) in *.
  apply resolve_services_origin in I. destruct I as (n & svc & I & R).
  unfold resolve_service in R.
  destruct (Doc.image svc) as [imageRef|] eqn:D; [|discriminate].
  destruct (truthy (Str imageRef)) eqn:T; cbn [negb] in R; [|discriminate].
  destruct (String.eqb_spec n "$$cap_appname") as [E1|N1];
    [|destruct (String.eqb_spec n ("$$cap_appname-" ++ appBaseName)) as [E2|N2]];
    cbn [orb negb] in R; try discriminate.
  all: destruct (includes "$$" imageRef && _); [discriminate|].
  all: destruct (parseDockerImage (resolve_image variables imageRef)) as [p|] eqn:P;
    [|discriminate].
  all: inversion R; subst s; clear R; cbn.
  all: repeat split; auto.
  all: try (exists entries, svc; auto).
  all: try (intros F; unfold truthy in T; rewrite F in T; discriminate).
  all: try (intros V; unfold resolve_image; rewrite V; reflexivity).
  all: apply parseDockerImage_accepts in P; tauto.
Qed.

Lemma extractAppConfig_services_witness :
  let s := Service.make "$$cap_appname" "wordpress:6.7.0" "wordpress:6.7.0" false
             (Image.make "wordpress:6.7.0" "docker.io" "library" "wordpress"
                "library/wordpress" "6.7.0" true) in
  (Service.serviceName s = "$$cap_appname"
   \/ Service.serviceName s = "$$cap_appname-" ++ "wordpress")
  /\ (exists entries service,
        Doc.services
          (Doc.make (Some [("$$cap_appname", Doc.make_service (Some "wordpress:6.7.0"))]) [])
        = Some entries
        /\ In (Service.serviceName s, service) entries
        /\ Doc.image service = Some (Service.originalImage s))
  /\ Service.originalImage s <> ""
  /\ Service.hasVariables s = includes "$$" (Service.originalImage s)
  /\ (Service.hasVariables s = false ->
      Service.resolvedImage s = Service.originalImage s)
  /\ parseDockerImage (Service.resolvedImage s) = Some (Service.parsed s)
  /\ Image.full (Service.parsed s) = Service.resolvedImage s.
Proof.
  apply (extractAppConfig_services
           (Doc.make (Some [("$$cap_appname", Doc.make_service (Some "wordpress:6.7.0"))]) [])
           "wordpress"
           (Config.make
              [Service.make "$$cap_appname" "wordpress:6.7.0" "wordpress:6.7.0" false
                 (Image.make "wordpress:6.7.0" "docker.io" "library" "wordpress"
                    "library/wordpress" "6.7.0" true)]
              [])).
  - reflexivity.
  - left. reflexivity.
Defined.

(** X10. On a main service without variables the two extractors agree: the
    parsed reference the template-aware extractor returns for it is also
    returned, under the same service name, by the basic extractor. *)
Theorem extractors_agree (data : Doc.t) (appBaseName : string)
    (config : Config.t) (s : Service.t) :
  extractAppConfig data appBaseName = Some config ->
  In s (Config.services config) ->
  Service.hasVariables s = false ->
  In (Extracted.make (Service.parsed s) (Service.serviceName s))
     (extractImagesFromYaml (Normal (document_node data))).
Proof.
  intros X I V.
  destruct (extractAppConfig_service_facts _ _ _ _ X I)
    as (_ & (entries & svc & S & E & D) & _ & _ & U & P & _).
  rewrite (U V) in P.
  apply extractImagesFromYaml_elements.
  exists (document_node data), (Yaml.Map (service_nodes entries)),
    (service_nodes entries), (service_node svc), (Service.originalImage s).
  cbn [Extracted.serviceName Extracted.parsed].
  refine (conj eq_refl (conj _ (conj eq_refl (conj _ (conj _ (conj _ P)))))).
  - unfold document_node. rewrite S. reflexivity.
  - intros name N. unfold service_nodes in N. apply in_map_iff in N.
    destruct N as ([k v] & Eq & _). discriminate Eq.
  - unfold service_nodes. apply in_map_iff.
    exists (Service.serviceName s, svc). split; [reflexivity|exact E].
  - unfold service_node. rewrite D. reflexivity.
Qed.

Lemma extractors_agree_witness :
  In (Extracted.make
        (Image.make "wordpress:6.7.0" "docker.io" "library" "wordpress"
           "library/wordpress" "6.7.0" true)
        "$$cap_appname")
     (extractImagesFromYaml
        (Normal (document_node
           (Doc.make (Some [("$$cap_appname", Doc.make_service (Some "wordpress:6.7.0"))]) [])))).
Proof.
  apply (extractors_agree
           (Doc.make (Some [("$$cap_appname", Doc.make_service (Some "wordpress:6.7.0"))]) [])
           "wordpress"
           (Config.make
              [Service.make "$$cap_appname" "wordpress:6.7.0" "wordpress:6.7.0" false
                 (Image.make "wordpress:6.7.0" "docker.io" "library" "wordpress"
                    "library/wordpress" "6.7.0" true)]
              [])
           (Service.make "$$cap_appname" "wordpress:6.7.0" "wordpress:6.7.0" false
              (Image.make "wordpress:6.7.0" "docker.io" "library" "wordpress"
                 "library/wordpress" "6.7.0" true))).
  - reflexivity.
  - left. reflexivity.
  - reflexivity.
Defined.

(** ** The variable map *)

Lemma update_keys (o : Obj.t) (key val : string) :
  map fst (Obj.update o key val)
  = if existsb (fun k => String.eqb k key) (map fst o) then map fst o
    else (map fst o ++ [key])%list.
Proof.
  induction o as [|[k v] o IH]; cbn [Obj.update map fst existsb]; [reflexivity|].
  destruct (String.eqb_spec k key) as [->|N]; cbn [orb map fst]; [reflexivity|].
  rewrite IH. destruct (existsb _ (map fst o)); reflexivity.
Qed.

Lemma update_NoDup (o : Obj.t) (key val : string) :
  NoDup (map fst o) -> NoDup (map fst (Obj.update o key val)).
Proof.
  intros H. rewrite update_keys.
  destruct (existsb _ (map fst o)) eqn:E; [exact H|].
  apply NoDup_app; [exact H|repeat constructor; intros []|].
  intros k Hk [Heq|[]]. subst k.
  assert (X : existsb (fun k' => String.eqb k' key) (map fst o) = true).
  { apply existsb_exists. exists key. split; [exact Hk|apply String.eqb_refl]. }
  congruence.
Qed.

Lemma update_In (o : Obj.t) (key val k v : string) :
  In (k, v) (Obj.update o key val) -> (k, v) = (key, val) \/ In (k, v) o.
Proof.
  induction o as [|[k' v'] o IH]; cbn [Obj.update].
  - intros [H|[]]. left. congruence.
  - destruct (String.eqb_spec k' key) as [->|N].
    + intros [H|H]; [left; congruence|right; right; exact H].
    + intros [H|H]; [right; left; exact H|].
      destruct (IH H); [left|right; right]; assumption.
Qed.

(** What the loop that fills the map keeps true of it. *)
Lemma build_variables_invariant (declared : list Doc.variable) (o : Obj.t)
    (P : string -> string -> Prop) :
  (forall id val,
      In (Doc.make_variable (Some id) (Some val)) declared ->
      id <> "" -> val <> "" -> id <> "__proto__" -> P id val) ->
  NoDup (map fst o) ->
  (forall k v, In (k, v) o -> P k v) ->
  NoDup (map fst (build_variables declared o))
  /\ (forall k v, In (k, v) (build_variables declared o) -> P k v).
Proof.
  revert o. induction declared as [|[i d] rest IH]; intros o HP Hn Ho;
    cbn [build_variables]; [auto|].
  assert (HP' : forall id val,
             In (Doc.make_variable (Some id) (Some val)) rest ->
             id <> "" -> val <> "" -> id <> "__proto__" -> P id val).
  { intros id val I. apply HP. right. exact I. }
  cbn [Doc.id Doc.defaultValue].
  destruct i as [i|], d as [d|]; try (apply IH; assumption).
  unfold truthy.
  destruct (String.eqb_spec i "") as [Ei|Ni]; cbn [negb andb];
    [apply IH; assumption|].
  destruct (String.eqb_spec d "") as [Ed|Nd]; cbn [negb andb];
    [apply IH; assumption|].
  apply IH; [exact HP'| |]; unfold Obj.set;
    destruct (String.eqb_spec i "__proto__") as [Ep|Np]; try assumption.
  - apply update_NoDup, Hn.
  - intros k v H. apply update_In in H. destruct H as [H|H]; [|auto].
    inversion H; subst. apply HP; auto. left. reflexivity.
Qed.

Lemma insert_by_index_permutation (n : Z) (e : string * string)
    (l : list (Z * (string * string))) :
  Permutation (Obj.insert_by_index n e l) ((n, e) :: l).
Proof.
  induction l as [|[m e'] l IH]; cbn [Obj.insert_by_index]; [reflexivity|].
  destruct (n <? m); [reflexivity|].
  rewrite IH. apply perm_swap.
Qed.

(** [Object.entries] lists every property once. *)
Lemma entries_permutation (o : Obj.t) : Permutation (Obj.entries o) o.
Proof.
  unfold Obj.entries.
  induction o as [|[k v] o IH]; cbn [Obj.index_entries Obj.named_entries filter fst];
    [reflexivity|].
  destruct (Obj.array_index k) as [n|].
  - rewrite insert_by_index_permutation. cbn [map snd app].
    constructor. exact IH.
  - fold (Obj.named_entries o).
    rewrite <- Permutation_middle. constructor. exact IH.
Qed.

(** X11. The bindings the resolver iterates over: no id occurs twice, no id
    and no default value is empty, the id [__proto__] is never bound, and
    every binding was declared in the document with that default. *)
Theorem variables_bindings (declared : list Doc.variable) :
  NoDup (map fst (Obj.entries (build_variables declared [])))
  /\ (forall id val,
        In (id, val) (Obj.entries (build_variables declared [])) ->
        id <> "" /\ val <> "" /\ id <> "__proto__"
        /\ In (Doc.make_variable (Some id) (Some val)) declared).
Proof.
  destruct (build_variables_invariant declared []
              (fun id val => id <> "" /\ val <> "" /\ id <> "__proto__"
                 /\ In (Doc.make_variable (Some id) (Some val)) declared))
    as [Hn Hp].
  - auto.
  - constructor.
  - intros k v [].
  - pose proof (entries_permutation (build_variables declared [])) as Perm.
    split.
    + apply (Permutation_NoDup (l := map fst (build_variables declared [])));
        [|exact Hn].
      symmetry. apply Permutation_map, Perm.
    + intros id val I. apply Hp. apply (Permutation_in _ Perm), I.
Qed.

(** ** One variable, substituted *)

Lemma drop_append (a b : string) : drop (String.length a) (a ++ b) = b.
Proof.
  induction a as [|c a IH]; simpl; [destruct b; reflexivity|exact IH].
Qed.

(** The first occurrence of an id that starts with a dollar sign, after a
    text without dollar signs, is where the id stands. *)
Lemma find_first_after_plain (name pre post : string) :
  none_of (is_char "$") pre = true ->
  find_first (String "$" name) (pre ++ String "$" name ++ post)
  = Some (pre, post).
Proof.
  induction pre as [|c pre IH]; intros H; rewrite find_first_unfold.
  - change ("" ++ String "$" name ++ post) with (String "$" name ++ post).
    rewrite prefix_append, drop_append. reflexivity.
  - cbn [none_of] in H. apply andb_prop in H. destruct H as [Hc Hp].
    specialize (IH Hp). set (rest := String "$" name ++ post) in *.
    change (String c pre ++ rest) with (String c (pre ++ rest)).
    cbn [String.prefix].
    destruct (ascii_dec "$" c) as [E|_].
    + subst c. discriminate Hc.
    + rewrite IH. reflexivity.
Qed.

(** A replacement text without dollar signs is inserted as it is. *)
Lemma get_substitution_plain (matched before after template : string) :
  none_of (is_char "$") template = true ->
  get_substitution matched before after template = template.
Proof.
  induction template as [|c t IH]; intros H; [reflexivity|].
  cbn [none_of] in H. apply andb_prop in H. destruct H as [Hc Ht].
  specialize (IH Ht).
  destruct c as [[] [] [] [] [] [] [] []]; try discriminate Hc;
    cbn [get_substitution]; rewrite IH; reflexivity.
Qed.

(** X12. One declared variable: when the image is a text without dollar
    signs, then the id [$$name], then any text, and the default value has
    no dollar sign, the resolver puts the default value where the id stood
    and leaves the rest as written. *)
Theorem resolve_image_single (name val pre post : string) :
  none_of (is_char "$") pre = true ->
  none_of (is_char "$") val = true ->
  resolve_image [("$$" ++ name, val)] (pre ++ "$$" ++ name ++ post)
  = pre ++ val ++ post.
Proof.
  intros Hpre Hval. unfold resolve_image.
  assert (I : includes "$$" (pre ++ "$$" ++ name ++ post) = true).
  { apply includes_occurrence. exists pre, (name ++ post). reflexivity. }
  rewrite I. unfold substitute.
  change (Obj.entries [("$$" ++ name, val)]) with [("$$" ++ name, val)].
  cbn [fold_left fst snd]. unfold replace.
  assert (F : find_first ("$$" ++ name) (pre ++ "$$" ++ name ++ post)
              = Some (pre, post))
    by exact (find_first_after_plain (String "$" name) pre post Hpre).
  rewrite F, (get_substitution_plain _ _ _ _ Hval). reflexivity.
Qed.

Lemma resolve_image_single_witness :
  resolve_image [("$$" ++ "cap_wp_version", "6.7.0")]
    ("wordpress:" ++ "$$" ++ "cap_wp_version" ++ "")
  = "wordpress:" ++ "6.7.0" ++ "".
Proof.
  apply (resolve_image_single "cap_wp_version" "6.7.0" "wordpress:" "");
    reflexivity.
Defined.

(** ** The Docker Hub result *)

(** The first element a filter keeps. *)
Lemma filter_first {A : Type} (f : A -> bool) (l : list A) (x : A) (tl : list A) :
  filter f l = x :: tl <->
  exists skipped rest,
    l = (skipped ++ x :: rest)%list
    /\ Forall (fun s => f s = false) skipped
    /\ f x = true
    /\ tl = filter f rest.
Proof.
  split.
  - revert x tl. induction l as [|a l IH]; intros x tl H; cbn [filter] in H;
      [discriminate|].
    destruct (f a) eqn:Fa.
    + inversion H; subst. exists [], l. repeat split; auto.
    + destruct (IH _ _ H) as (sk & rest & -> & Fs & Fx & ->).
      exists (a :: sk), rest. repeat split; auto.
  - intros (sk & rest & -> & Fs & Fx & ->).
    induction Fs as [|a sk Fa Fs IH]; cbn [app filter].
    + now rewrite Fx.
    + now rewrite Fa.
Qed.

Lemma filter_none {A : Type} (f : A -> bool) (l : list A) :
  filter f l = [] <-> Forall (fun s => f s = false) l.
Proof.
  induction l as [|a l IH]; cbn [filter].
  - split; constructor.
  - destruct (f a) eqn:Fa.
    + split; [discriminate|]. intros H. inversion H; subst. congruence.
    + rewrite IH. split; [constructor; assumption|].
      intros H. inversion H; subst. assumption.
Qed.

(** X13. [latestStable] is the name of the first tag, in the order of the
    response, that passes the name filter, provided that name is not
    empty; it is not chosen by comparing versions. *)
Theorem latestStable_first_version_tag (results : list Hub.tag) (r : Hub.t)
    (n : string) :
  Hub.from_response (Some results) = Some r ->
  (Hub.latestStable r = Some n <->
   exists skipped t rest,
     results = (skipped ++ t :: rest)%list
     /\ Forall (fun s => Hub.version_tag (Hub.tag_name s) = false) skipped
     /\ Hub.version_tag (Hub.tag_name t) = true
     /\ Hub.tag_name t = n
     /\ n <> "").
Proof.
  intros H. cbn in H. inversion H; subst r; clear H. cbn [Hub.latestStable].
  unfold Hub.filtered.
  set (f := fun t => Hub.version_tag (Hub.tag_name t)).
  destruct (filter f results) as [|x tl] eqn:F; cbn [map Hub.first_name].
  - split; [discriminate|].
    intros (sk & t & rest & E & Fs & Ft & _).
    assert (X : filter f results = t :: filter f rest).
    { apply filter_first. exists sk, rest. auto. }
    congruence.
  - cbn [Hub.name]. unfold truthy.
    apply filter_first in F. destruct F as (sk & rest & E & Fs & Fx & _).
    split.
    + destruct (String.eqb_spec (Hub.tag_name x) "") as [Em|Ne];
        cbn [negb]; [discriminate|].
      intros X. inversion X; subst n. exists sk, x, rest. auto.
    + intros (sk' & t & rest' & E' & Fs' & Ft & En & Nn).
      assert (X1 : filter f results = x :: filter f rest).
      { apply filter_first. exists sk, rest. auto. }
      assert (X2 : filter f results = t :: filter f rest').
      { apply filter_first. exists sk', rest'. auto. }
      rewrite X1 in X2. inversion X2; subst t.
      apply String.eqb_neq in Nn. rewrite En, Nn. cbn. congruence.
Qed.

Lemma latestStable_first_version_tag_witness :
  Hub.latestStable
    (Hub.make [Hub.make_version "1.25.3" None None; Hub.make_version "1.24" None None]
              (Some "1.25.3"))
  = Some "1.25.3" <->
  exists skipped t rest,
    [Hub.make_tag "latest" None None; Hub.make_tag "1.25.3" None None;
     Hub.make_tag "1.24" None None]
    = (skipped ++ t :: rest)%list
    /\ Forall (fun s => Hub.version_tag (Hub.tag_name s) = false) skipped
    /\ Hub.version_tag (Hub.tag_name t) = true
    /\ Hub.tag_name t = "1.25.3"
    /\ "1.25.3" <> "".
Proof.
  apply (latestStable_first_version_tag
           [Hub.make_tag "latest" None None; Hub.make_tag "1.25.3" None None;
            Hub.make_tag "1.24" None None]).
  reflexivity.
Defined.

Lemma firstn_subset {A : Type} (n : nat) (l : list A) (x : A) :
  In x (firstn n l) -> In x l.
Proof.
  intros H. rewrite <- (firstn_skipn n l). apply in_or_app. left. exact H.
Qed.

Lemma version_tag_true (n : string) :
  Hub.version_tag n = true ->
  ~ In n ["latest"; "edge"; "dev"; "nightly"; "canary"; "alpha"; "beta"; "rc"]
  /\ includes "snapshot" n = false.
Proof.
  unfold Hub.version_tag. intros H.
  destruct (includes "snapshot" n); [rewrite !orb_true_r in H; discriminate|].
  split; [|reflexivity]. rewrite orb_false_r in H.
  intros I. cbn [In] in I.
  repeat (destruct I as [<-|I]; [discriminate H|]). exact I.
Qed.

(** X14. The result of the Docker Hub lookup keeps at most ten versions,
    each copied from a tag of the response; none of them, and neither
    [latestStable], is one of the names [latest], [edge],
    [dev], [nightly], [canary], [alpha], [beta] and [rc] or contains
    [snapshot]. *)
Theorem hub_versions (results : list Hub.tag) (r : Hub.t) :
  Hub.from_response (Some results) = Some r ->
  (List.length (Hub.versions r) <= 10)%nat
  /\ (forall v, In v (Hub.versions r) ->
        (exists t, In t results /\ Hub.tag_name t = Hub.name v
                   /\ Hub.last_updated t = Hub.lastUpdated v
                   /\ Hub.digest t = Hub.version_digest v)
        /\ ~ In (Hub.name v)
             ["latest"; "edge"; "dev"; "nightly"; "canary"; "alpha"; "beta"; "rc"]
        /\ includes "snapshot" (Hub.name v) = false)
  /\ (forall n, Hub.latestStable r = Some n ->
        ~ In n ["latest"; "edge"; "dev"; "nightly"; "canary"; "alpha"; "beta"; "rc"]
        /\ includes "snapshot" n = false).
Proof.
  intros H.
  assert (E : r = Hub.make (firstn 10 (Hub.filtered results))
                    (Hub.first_name (Hub.filtered results))).
  { unfold Hub.from_response in H. cbv zeta in H. congruence. }
  clear H. subst r. unfold Hub.versions, Hub.latestStable.
  assert (Kept : forall v, In v (Hub.filtered results) ->
            exists t, In t results /\ Hub.version_tag (Hub.tag_name t) = true
                      /\ v = Hub.make_version (Hub.tag_name t) (Hub.last_updated t)
                               (Hub.digest t)).
  { unfold Hub.filtered. intros v I. apply in_map_iff in I.
    destruct I as (t & <- & I). apply filter_In in I. exists t. tauto. }
  split; [apply firstn_le_length|]. split.
  - intros v I. apply firstn_subset, Kept in I. destruct I as (t & I & V & ->).
    cbn. split; [exists t; auto|apply version_tag_true, V].
  - intros n. destruct (Hub.filtered results) as [|v tl] eqn:F; [discriminate|].
    cbn [Hub.first_name]. destruct (truthy (Str (Hub.name v))); [|discriminate].
    intros X. inversion X; subst n.
    destruct (Kept v (or_introl eq_refl)) as (t & _ & V & ->).
    apply version_tag_true, V.
Qed.

Lemma hub_versions_witness :
  let r := Hub.make [Hub.make_version "1.25.3" None None] (Some "1.25.3") in
  (List.length (Hub.versions r) <= 10)%nat
  /\ (forall v, In v (Hub.versions r) ->
        (exists t, In t [Hub.make_tag "latest" None None;
                         Hub.make_tag "1.25.3" None None]
                   /\ Hub.tag_name t = Hub.name v
                   /\ Hub.last_updated t = Hub.lastUpdated v
                   /\ Hub.digest t = Hub.version_digest v)
        /\ ~ In (Hub.name v)
             ["latest"; "edge"; "dev"; "nightly"; "canary"; "alpha"; "beta"; "rc"]
        /\ includes "snapshot" (Hub.name v) = false)
  /\ (forall n, Hub.latestStable r = Some n ->
        ~ In n ["latest"; "edge"; "dev"; "nightly"; "canary"; "alpha"; "beta"; "rc"]
        /\ includes "snapshot" n = false).
Proof.
  apply (hub_versions [Hub.make_tag "latest" None None;
                       Hub.make_tag "1.25.3" None None]).
  reflexivity.
Defined.

(** ** The GitHub lookup *)

(** X15. The GitHub lookup answers with the first release of the response
    that is neither a pre-release nor a draft, with one leading [v]
    stripped from its tag; it has no answer exactly when every release is a
    pre-release or a draft.  It lists at most ten versions, all of them
    stable releases of the response. *)
Theorem github_first_stable_release (releases : list GitHub.release) :
  (GitHub.from_response (Some releases) = None <->
   Forall (fun r => negb (GitHub.prerelease r) && negb (GitHub.draft r) = false)
          releases)
  /\ (forall r, GitHub.from_response (Some releases) = Some r ->
        (exists skipped latest rest,
            releases = (skipped ++ latest :: rest)%list
            /\ Forall (fun s => negb (GitHub.prerelease s) && negb (GitHub.draft s)
                                = false) skipped
            /\ GitHub.prerelease latest = false /\ GitHub.draft latest = false
            /\ GitHub.tagName r = GitHub.tag_name latest
            /\ GitHub.version r = strip_v (GitHub.tag_name latest))
        /\ (List.length (GitHub.allVersions r) <= 10)%nat
        /\ (forall l, In l (GitHub.allVersions r) ->
              exists s, In s releases
                        /\ GitHub.prerelease s = false /\ GitHub.draft s = false
                        /\ GitHub.listed_tagName l = GitHub.tag_name s
                        /\ GitHub.listed_version l = strip_v (GitHub.tag_name s))).
Proof.
  set (f := fun r => negb (GitHub.prerelease r) && negb (GitHub.draft r)).
  assert (Stable : forall s, f s = true ->
            GitHub.prerelease s = false /\ GitHub.draft s = false).
  { unfold f. intros s H. apply andb_prop in H.
    destruct (GitHub.prerelease s), (GitHub.draft s); cbn in H; intuition discriminate. }
  assert (E : GitHub.from_response (Some releases)
              = match filter f releases with
                | [] => None
                | latest :: _ =>
                    Some (GitHub.make (strip_v (GitHub.tag_name latest))
                            (GitHub.tag_name latest) (GitHub.release_name latest)
                            (GitHub.published_at latest) (GitHub.html_url latest)
                            (map (fun r => GitHub.make_listed
                                             (strip_v (GitHub.tag_name r))
                                             (GitHub.tag_name r)
                                             (GitHub.published_at r))
                                 (firstn 10 (filter f releases))))
                end).
  { destruct releases; reflexivity. }
  rewrite E. clear E. split.
  - pose proof (filter_none f releases) as FN.
    destruct (filter f releases) as [|x tl].
    + split; [intros _; apply FN; reflexivity|reflexivity].
    + split; [discriminate|]. intros H. apply FN in H. discriminate.
  - intros r H. destruct (filter f releases) as [|latest tl] eqn:F; [discriminate|].
    match type of H with
    | Some ?v = Some r => assert (E : r = v) by congruence
    end.
    clear H. subst r. cbn [GitHub.tagName GitHub.version GitHub.allVersions].
    split; [|split].
    + pose proof F as F'. apply filter_first in F'.
      destruct F' as (sk & rest & -> & Fs & Fx & _).
      exists sk, latest, rest. destruct (Stable _ Fx). repeat split; auto.
    + rewrite length_map. apply firstn_le_length.
    + intros l I. apply in_map_iff in I. destruct I as (s & <- & I).
      apply firstn_subset in I. rewrite <- F in I. apply filter_In in I.
      destruct I as [I Fs]. destruct (Stable _ Fs). exists s. cbn.
      repeat split; auto.
Qed.

Lemma getGitHubRepo_aux_ignores_tag (name tag : string) :
  count_char ":" name = O ->
  GitHub.getGitHubRepo (name ++ ":" ++ tag) = GitHub.getGitHubRepo name.
Proof.
  intros H. unfold GitHub.getGitHubRepo, GitHub.image_name.
  change (name ++ ":" ++ tag) with (name ++ String ":" tag).
  rewrite (split_on_first ":" name tag H), (split_on_whole ":" name H).
  reflexivity.
Qed.

(** X16. The GitHub repository found for an image does not depend on the
    tag: only the text before the first colon is looked at. *)
Theorem getGitHubRepo_ignores_tag (name tag : string) :
  count_char ":" name = O ->
  GitHub.getGitHubRepo (name ++ ":" ++ tag) = GitHub.getGitHubRepo name.
Proof.
  intros H. unfold GitHub.getGitHubRepo, GitHub.image_name.
  change (name ++ ":" ++ tag) with (name ++ String ":" tag).
  rewrite (split_on_first ":" name tag H), (split_on_whole ":" name H).
  reflexivity.
Qed.

Lemma getGitHubRepo_ignores_tag_witness :
  GitHub.getGitHubRepo ("gitea/gitea" ++ ":" ++ "1.21.1")
  = GitHub.getGitHubRepo "gitea/gitea".
Proof.
  apply (getGitHubRepo_ignores_tag "gitea/gitea" "1.21.1"). reflexivity.
Defined.

(** X17. Whenever the GitHub release lookup is started for an image, the
    owner and the repository it is started with are not empty and contain
    no slash. *)
Theorem release_target_well_formed (dockerImage owner repo : string) :
  GitHub.release_target dockerImage = Normal (Some (owner, repo)) ->
  owner <> "" /\ repo <> ""
  /\ count_char "/" owner = O /\ count_char "/" repo = O.
Proof.
  unfold GitHub.release_target.
  destruct (GitHub.getGitHubRepo dockerImage) as [p|k|]; try discriminate.
  destruct (negb (truthy (Str p))); [discriminate|].
  pose proof (split_on_pieces "/" p) as P.
  destruct (split_on (is_char "/") p) as [|o [|r rest]]; try discriminate.
  unfold truthy.
  destruct (String.eqb_spec o "") as [Eo|No]; cbn [negb orb]; [discriminate|].
  destruct (String.eqb_spec r "") as [Er|Nr]; cbn [negb orb]; [discriminate|].
  intros H. inversion H; subst.
  inversion P as [|? ? Po P']; subst. inversion P' as [|? ? Pr _]; subst.
  auto.
Qed.

Lemma release_target_well_formed_witness :
  "go-gitea" <> "" /\ "gitea" <> ""
  /\ count_char "/" "go-gitea" = O /\ count_char "/" "gitea" = O.
Proof.
  apply (release_target_well_formed "gitea/gitea:1.21.1" "go-gitea" "gitea").
  reflexivity.
Defined.

Lemma not_a_slash_free_name (names : list string) (x : string) :
  Forall (fun n => count_char "/" n = O) names ->
  count_char "/" x <> O ->
  array_includes names x = false.
Proof.
  intros F Hx. unfold array_includes.
  destruct (existsb (String.eqb x) names) eqn:E; [|reflexivity].
  apply existsb_exists in E. destruct E as (n & I & Q).
  apply String.eqb_eq in Q. subst n.
  rewrite Forall_forall in F. elim Hx. apply F, I.
Qed.

Lemma inherited_names_slash_free :
  Forall (fun n => count_char "/" n = O) GitHub.inherited_names.
Proof.
  repeat constructor.
Qed.

(** X18. For an image [namespace/repository:tag] that is not in the table,
    the release lookup is started with the namespace as owner and the
    repository as repository, whatever the tag. *)
Theorem release_target_namespaced (namespace repository tag : string) :
  namespace <> "" -> repository <> "" ->
  count_char "/" namespace = O -> count_char ":" namespace = O ->
  count_char "/" repository = O -> count_char ":" repository = O ->
  GitHub.own GitHub.DOCKER_TO_GITHUB_MAP (namespace ++ "/" ++ repository) = None ->
  GitHub.release_target ((namespace ++ "/" ++ repository) ++ ":" ++ tag)
  = Normal (Some (namespace, repository)).
Proof.
  intros Nn Nr Hns Hnc Hrs Hrc Own.
  assert (Parts : split_on (is_char "/") (namespace ++ "/" ++ repository)
                  = [namespace; repository]).
  { change (namespace ++ "/" ++ repository)
      with (namespace ++ String "/" repository).
    rewrite (split_on_first "/" namespace repository Hns),
            (split_on_whole "/" repository Hrs). reflexivity. }
  assert (Colons : count_char ":" (namespace ++ "/" ++ repository) = O)
    by (rewrite !count_char_append; cbn; lia).
  assert (Slashes : count_char "/" (namespace ++ "/" ++ repository) <> O)
    by (rewrite !count_char_append; cbn; lia).
  assert (Full : String.eqb (namespace ++ "/" ++ repository) "" = false)
    by (destruct namespace; reflexivity).
  revert Parts Colons Slashes Full Own.
  generalize (namespace ++ "/" ++ repository) as imageName.
  intros imageName Parts Colons Slashes Full Own.
  unfold GitHub.release_target.
  rewrite (getGitHubRepo_aux_ignores_tag imageName tag Colons).
  unfold GitHub.getGitHubRepo, GitHub.lookup, GitHub.image_name.
  rewrite (split_on_whole ":" imageName Colons). cbv zeta.
  rewrite Own, (not_a_slash_free_name _ _ inherited_names_slash_free Slashes).
  rewrite Parts. cbn [List.length Nat.eqb].
  unfold truthy. rewrite Full. cbn [negb]. rewrite Parts.
  apply String.eqb_neq in Nn, Nr. rewrite Nn, Nr. reflexivity.
Qed.

Lemma release_target_namespaced_witness :
  GitHub.release_target (("traefik" ++ "/" ++ "whoami") ++ ":" ++ "v1.10")
  = Normal (Some ("traefik", "whoami")).
Proof.
  apply (release_target_namespaced "traefik" "whoami" "v1.10");
    try discriminate; reflexivity.
Defined.

(** X19. For an official image (a name without slash) that is not in the
    table and is not the name of a built-in property, no release lookup is
    started. *)
Theorem release_target_official (name tag : string) :
  count_char "/" name = O -> count_char ":" name = O ->
  GitHub.own GitHub.DOCKER_TO_GITHUB_MAP name = None ->
  array_includes GitHub.inherited_names name = false ->
  GitHub.release_target (name ++ ":" ++ tag) = Normal None.
Proof.
  intros Hs Hc Own Inh. unfold GitHub.release_target.
  rewrite (getGitHubRepo_aux_ignores_tag name tag Hc).
  unfold GitHub.getGitHubRepo, GitHub.lookup, GitHub.image_name.
  rewrite (split_on_whole ":" name Hc). cbv zeta.
  rewrite Own, Inh, (split_on_whole "/" name Hs). reflexivity.
Qed.

Lemma release_target_official_witness :
  GitHub.release_target ("nginx" ++ ":" ++ "1.25") = Normal None.
Proof.
  apply (release_target_official "nginx" "1.25"); reflexivity.
Defined.

(** X20. [compareWithGitHub] decides as [detectUpdate] does on the version
    of the release: both have no verdict for an empty version, and
    otherwise their verdicts carry the same versions and the same
    [hasUpdate]. *)
Theorem compareWithGitHub_as_detectUpdate (currentVersion : string)
    (info : GitHub.t) :
  match GitHub.compareWithGitHub currentVersion (Some info),
        detectUpdate currentVersion (Some (GitHub.version info)) with
  | Some g, Some d =>
      GitHub.hasUpdate g = Verdict.hasUpdate d
      /\ GitHub.currentVersion g = Verdict.currentVersion d
      /\ GitHub.latestVersion g = Verdict.latestVersion d
  | None, None => GitHub.version info = ""
  | _, _ => False
  end.
Proof.
  unfold GitHub.compareWithGitHub, detectUpdate, truthy.
  destruct (String.eqb_spec (GitHub.version info) "") as [E|N]; cbn [negb];
    [exact E|].
  cbv zeta.
  rewrite compareVersions_any_strings, determineUpdateType_any_strings.
  cbn [bind].
  destruct (compareVersions (GitHub.version info) currentVersion >? 0);
    cbn; auto.
Qed.

(** ** The scan and its report *)

Lemma check_image_pushed (file : string) (image : Extracted.t)
    (info : option Hub.t) (u : Update.t) :
  check_image file image info = Some u ->
  Update.file u = file
  /\ Update.serviceName u = Extracted.serviceName image
  /\ Update.image u = Image.fullName (Extracted.parsed image)
  /\ Update.currentVersion u = Image.currentVersion (Extracted.parsed image)
  /\ (exists i, info = Some i /\ Hub.latestStable i = Some (Update.latestVersion u))
  /\ Update.latestVersion u <> ""
  /\ compareVersions (Update.latestVersion u) (Update.currentVersion u) = 1
  /\ Update.updateType u
     = Some (determineUpdateType (Update.currentVersion u) (Update.latestVersion u)).
Proof.
  unfold check_image. destruct info as [i|]; [|discriminate].
  destruct (Hub.latestStable i) as [latest|] eqn:L; cbn [truthy_field];
    [|discriminate].
  unfold truthy. destruct (String.eqb_spec latest "") as [E|N]; cbn [negb];
    [discriminate|].
  cbv zeta. rewrite (detectUpdate_nonempty _ _ N).
  destruct (compareVersions latest _ >? 0) eqn:C; cbn [Verdict.hasUpdate];
    [|discriminate].
  apply compareVersions_positive in C.
  intros H. inversion H; subst u; clear H. cbn.
  repeat split; auto. exists i. auto.
Qed.

Lemma check_images_origin (file : string)
    (images : list (Extracted.t * option Hub.t)) (u : Update.t) :
  In u (check_images file images) ->
  exists image info, In (image, info) images /\ check_image file image info = Some u.
Proof.
  induction images as [|[image info] rest IH]; cbn [check_images]; [intros []|].
  destruct (check_image file image info) as [u'|] eqn:E.
  - intros [<-|H].
    + exists image, info. split; [left; reflexivity|exact E].
    + destruct (IH H) as (im & inf & I & C). exists im, inf. split; [right|]; auto.
  - intros H. destruct (IH H) as (im & inf & I & C).
    exists im, inf. split; [right|]; auto.
Qed.

Lemma scan_origin (files : list (string * list (Extracted.t * option Hub.t)))
    (u : Update.t) :
  In u (fst (scan files)) ->
  exists file images image info,
    In (file, images) files /\ In (image, info) images
    /\ check_image file image info = Some u.
Proof.
  induction files as [|[file images] rest IH]; cbn [scan]; [intros []|].
  destruct (scan rest) as [results processedCount]. cbn [fst] in IH.
  assert (Later : In u results ->
            exists f ims image info,
              In (f, ims) ((file, images) :: rest) /\ In (image, info) ims
              /\ check_image f image info = Some u).
  { intros H. destruct (IH H) as (f & ims & im & inf & I & J & C).
    exists f, ims, im, inf. split; [right|]; auto. }
  destruct images as [|x images']; cbn [fst]; [exact Later|].
  intros H. apply in_app_or in H. destruct H as [H|H]; [|auto].
  apply check_images_origin in H. destruct H as (im & inf & J & C).
  exists file, (x :: images'), im, inf. split; [left; reflexivity|]; auto.
Qed.

Lemma checkAllApps_updates (files : list (string * list (Extracted.t * option Hub.t))) :
  Report.updates (checkAllApps files) = fst (scan files)
  /\ Report.totalUpdatesAvailable (checkAllApps files)
     = List.length (fst (scan files)).
Proof.
  unfold checkAllApps. destruct (scan files). split; reflexivity.
Qed.

(** X21. Every update in the report of a scan is one: it comes from an
    image of a scanned file and the [latestStable] the lookup returned for
    it, that version is not empty, the comparator orders it strictly after
    the current version of the image, and its update type is the one the
    classifier gives. *)
Theorem report_updates_are_updates
    (files : list (string * list (Extracted.t * option Hub.t))) (u : Update.t) :
  In u (Report.updates (checkAllApps files)) ->
  (exists images image info,
      In (Update.file u, images) files /\ In (image, Some info) images
      /\ Update.serviceName u = Extracted.serviceName image
      /\ Update.currentVersion u = Image.currentVersion (Extracted.parsed image)
      /\ Hub.latestStable info = Some (Update.latestVersion u))
  /\ Update.latestVersion u <> ""
  /\ compareVersions (Update.latestVersion u) (Update.currentVersion u) = 1
  /\ Update.updateType u
     = Some (determineUpdateType (Update.currentVersion u) (Update.latestVersion u)).
Proof.
  destruct (checkAllApps_updates files) as [-> _]. intros H.
  apply scan_origin in H. destruct H as (f & ims & im & inf & I & J & C).
  apply check_image_pushed in C.
  destruct C as (F & S & _ & Cu & (i & -> & L) & N & Cmp & T).
  subst f. split; [|auto]. exists ims, im, i. auto.
Qed.

Lemma report_updates_are_updates_witness :
  let image := Extracted.make
                 (Image.make "nginx:1.24" "docker.io" "library" "nginx"
                    "library/nginx" "1.24" true) "web" in
  let info := Hub.make [] (Some "1.25") in
  let u := Update.make "nginx.yml" "library/nginx" "web" "1.24" "1.25" (Some minor) in
  (exists images image' info',
      In (Update.file u, images) [("nginx.yml", [(image, Some info)])]
      /\ In (image', Some info') images
      /\ Update.serviceName u = Extracted.serviceName image'
      /\ Update.currentVersion u = Image.currentVersion (Extracted.parsed image')
      /\ Hub.latestStable info' = Some (Update.latestVersion u))
  /\ Update.latestVersion u <> ""
  /\ compareVersions (Update.latestVersion u) (Update.currentVersion u) = 1
  /\ Update.updateType u
     = Some (determineUpdateType (Update.currentVersion u) (Update.latestVersion u)).
Proof.
  apply (report_updates_are_updates
           [("nginx.yml",
             [(Extracted.make
                 (Image.make "nginx:1.24" "docker.io" "library" "nginx"
                    "library/nginx" "1.24" true) "web",
               Some (Hub.make [] (Some "1.25")))])]).
  left. reflexivity.
Defined.

(** The four counts of a list in which every update has a type. *)
Lemma typed_counts (results : list Update.t) :
  Forall (fun u => Update.updateType u <> None) results ->
  (List.length (filter (has_type major) results)
   + List.length (filter (has_type minor) results)
   + List.length (filter (has_type patch) results)
   + List.length (filter (has_type other) results)
   = List.length results)%nat.
Proof.
  induction 1 as [|u results Hu _ IH]; [reflexivity|].
  cbn [filter].
  assert (Ty : forall t, has_type t u
                         = match Update.updateType u with
                           | Some t' => update_type_eqb t' t
                           | None => false
                           end) by reflexivity.
  rewrite !Ty. clear Ty.
  destruct (Update.updateType u) as [[]|]; [| | | |congruence];
    cbn [update_type_eqb]; cbv iota; cbn [List.length]; lia.
Qed.

(** X22. The summary of a report adds up: the counts of major, minor,
    patch and other updates sum to the number of updates reported. *)
Theorem report_summary_adds_up
    (files : list (string * list (Extracted.t * option Hub.t))) :
  (Report.major_count (Report.summary_of (checkAllApps files))
   + Report.minor_count (Report.summary_of (checkAllApps files))
   + Report.patch_count (Report.summary_of (checkAllApps files))
   + Report.other_count (Report.summary_of (checkAllApps files))
   = Report.totalUpdatesAvailable (checkAllApps files))%nat
  /\ Report.totalUpdatesAvailable (checkAllApps files)
     = List.length (Report.updates (checkAllApps files)).
Proof.
  assert (T : Forall (fun u => Update.updateType u <> None) (fst (scan files))).
  { apply Forall_forall. intros u H. apply scan_origin in H.
    destruct H as (f & ims & im & inf & _ & _ & C).
    apply check_image_pushed in C. destruct C as (_ & _ & _ & _ & _ & _ & _ & Ty).
    rewrite Ty. discriminate. }
  unfold checkAllApps. destruct (scan files) as [results processedCount].
  cbn [fst] in T. cbn. split; [apply typed_counts, T|reflexivity].
Qed.

(** ** The command line *)

Lemma array_includes_In (arr : list string) (x : string) :
  array_includes arr x = true <-> In x arr.
Proof.
  unfold array_includes. rewrite existsb_exists. split.
  - intros (y & I & E). apply String.eqb_eq in E. subst. exact I.
  - intros I. exists x. split; [exact I|apply String.eqb_refl].
Qed.

Lemma updates_to_apply_types (types : list update_type) (updates : list Update.t)
    (u : Update.t) :
  In u (updates_to_apply types updates) ->
  In u updates /\ exists t, In t types /\ Update.updateType u = Some t.
Proof.
  unfold updates_to_apply. intros H. apply filter_In in H. destruct H as [I E].
  split; [exact I|]. apply existsb_exists in E. destruct E as (t & It & Ht).
  exists t. split; [exact It|]. unfold has_type in Ht.
  destruct (Update.updateType u) as [t'|]; [|discriminate].
  destruct t, t'; try discriminate; reflexivity.
Qed.

Lemma updates_written_cases (args : list string) (updates : list Update.t)
    (u : Update.t) :
  In u (updates_written args updates) ->
  In "--apply" args /\ ~ In "--dry-run" args
  /\ In u (updates_to_apply (update_types (parse_options args)) updates).
Proof.
  unfold updates_written. cbv zeta.
  cbn [parse_options Options.applyUpdates Options.dryRun].
  destruct (array_includes args "--apply") eqn:A,
           (array_includes args "--dry-run") eqn:D; cbn [orb]; try (intros []).
  intros H. split; [apply array_includes_In, A|]. split; [|exact H].
  intros I. apply array_includes_In in I. congruence.
Qed.

(** X23. Templates are rewritten only when [--apply] is given and
    [--dry-run] is not, and only for updates of the report. *)
Theorem updates_written_only_on_apply (args : list string)
    (updates : list Update.t) (u : Update.t) :
  In u (updates_written args updates) ->
  In "--apply" args /\ ~ In "--dry-run" args /\ In u updates.
Proof.
  intros H. apply updates_written_cases in H. destruct H as (A & D & H).
  apply updates_to_apply_types in H. tauto.
Qed.

Lemma updates_written_only_on_apply_witness :
  In "--apply" ["--apply"] /\ ~ In "--dry-run" ["--apply"]
  /\ In (Update.make "nginx.yml" "library/nginx" "web" "1.24" "1.25" (Some minor))
        [Update.make "nginx.yml" "library/nginx" "web" "1.24" "1.25" (Some minor)].
Proof.
  apply (updates_written_only_on_apply ["--apply"]).
  left. reflexivity.
Defined.

(** X24. With [--patch-only] on the command line, every update for which a
    template is rewritten is a patch update, whatever the other flags. *)
Theorem patch_only_writes_patches (args : list string)
    (updates : list Update.t) (u : Update.t) :
  In "--patch-only" args ->
  In u (updates_written args updates) ->
  Update.updateType u = Some patch.
Proof.
  intros P H. apply updates_written_cases in H. destruct H as (_ & _ & H).
  apply updates_to_apply_types in H. destruct H as (_ & t & It & Ht).
  unfold update_types in It. cbn [parse_options Options.patchOnly] in It.
  apply array_includes_In in P. rewrite P in It.
  destruct It as [<-|[]]. exact Ht.
Qed.

Lemma patch_only_writes_patches_witness :
  Update.updateType
    (Update.make "nginx.yml" "library/nginx" "web" "1.24.0" "1.24.1" (Some patch))
  = Some patch.
Proof.
  apply (patch_only_writes_patches ["--apply"; "--patch-only"; "--minor-and-patch"]
           [Update.make "nginx.yml" "library/nginx" "web" "1.24.0" "2.0.0" (Some major);
            Update.make "nginx.yml" "library/nginx" "web" "1.24.0" "1.24.1" (Some patch)]).
  - right. left. reflexivity.
  - left. reflexivity.
Defined.

(** X25. With [--minor-and-patch] on the command line, every update for
    which a template is rewritten is a minor or a patch update: no major
    and no unclassified update is applied. *)
Theorem minor_and_patch_writes_no_major (args : list string)
    (updates : list Update.t) (u : Update.t) :
  In "--minor-and-patch" args ->
  In u (updates_written args updates) ->
  Update.updateType u = Some minor \/ Update.updateType u = Some patch.
Proof.
  intros M H. apply updates_written_cases in H. destruct H as (_ & _ & H).
  apply updates_to_apply_types in H. destruct H as (_ & t & It & Ht).
  unfold update_types in It.
  cbn [parse_options Options.patchOnly Options.minorAndPatch] in It.
  apply array_includes_In in M. rewrite M in It.
  destruct (array_includes args "--patch-only").
  - destruct It as [<-|[]]. auto.
  - destruct It as [<-|[<-|[]]]; auto.
Qed.

Lemma minor_and_patch_writes_no_major_witness :
  Update.updateType
    (Update.make "nginx.yml" "library/nginx" "web" "1.24.0" "1.25.0" (Some minor))
  = Some minor
  \/ Update.updateType
       (Update.make "nginx.yml" "library/nginx" "web" "1.24.0" "1.25.0" (Some minor))
     = Some patch.
Proof.
  apply (minor_and_patch_writes_no_major ["--apply"; "--minor-and-patch"]
           [Update.make "nginx.yml" "library/nginx" "web" "1.24.0" "2.0.0" (Some major);
            Update.make "nginx.yml" "library/nginx" "web" "1.24.0" "1.25.0" (Some minor)]).
  - right. left. reflexivity.
  - left. reflexivity.
Defined.

Lemma drop_head (n : nat) (s : string) : exists head, s = head ++ drop n s.
Proof.
  revert s. induction n as [|n IH]; intros s.
  - exists "". reflexivity.
  - destruct s as [|c s]; cbn [drop]; [exists ""; reflexivity|].
    destruct (IH s) as [h E]. exists (String c h). cbn. now rewrite <- E.
Qed.

Lemma length_append (a b : string) :
  String.length (a ++ b) = (String.length a + String.length b)%nat.
Proof.
  induction a as [|c a IH]; cbn; [reflexivity|now rewrite IH].
Qed.

Lemma ends_with_suffix (suffix s : string) :
  ends_with suffix s = true <-> exists stem, s = stem ++ suffix.
Proof.
  unfold ends_with. split.
  - intros H. apply andb_prop in H. destruct H as [_ E].
    apply String.eqb_eq in E.
    destruct (drop_head (String.length s - String.length suffix) s) as [h Hh].
    exists h. rewrite E in Hh. exact Hh.
  - intros [stem ->]. rewrite length_append.
    replace (String.length stem + String.length suffix - String.length suffix)%nat
      with (String.length stem) by lia.
    rewrite drop_append, String.eqb_refl, andb_true_r.
    apply Nat.leb_le. lia.
Qed.

(** X26. The files a scan reads are files of the directory listing whose
    name ends in [.yml]; when a list of apps is given, each of them is on
    that list. *)
Theorem select_files_selected (listing specificApps : list string) (f : string) :
  In f (select_files listing specificApps) ->
  In f listing
  /\ (exists stem, f = stem ++ ".yml")
  /\ (specificApps <> [] -> In f specificApps).
Proof.
  unfold select_files. intros H. apply filter_In in H. destruct H as [H A].
  apply filter_In in H. destruct H as [I Y].
  split; [exact I|]. split; [apply ends_with_suffix, Y|].
  intros N. destruct specificApps as [|a l]; [congruence|].
  cbn [List.length Nat.eqb orb] in A. apply array_includes_In, A.
Qed.

Lemma select_files_selected_witness :
  In "wordpress.yml" ["wordpress.yml"; "README.md"; "gitea.yml"]
  /\ (exists stem, "wordpress.yml" = stem ++ ".yml")
  /\ (["wordpress.yml"] <> [] -> In "wordpress.yml" ["wordpress.yml"]).
Proof.
  apply (select_files_selected ["wordpress.yml"; "README.md"; "gitea.yml"]
           ["wordpress.yml"]).
  left. reflexivity.
Defined.

Lemma index_of_first (pre rest : list string) (x : string) :
  ~ In x pre -> index_of (pre ++ x :: rest)%list x = Some (List.length pre).
Proof.
  induction pre as [|y pre IH]; intros H; cbn [app index_of List.length].
  - now rewrite String.eqb_refl.
  - destruct (String.eqb_spec y x) as [->|_]; [elim H; left; reflexivity|].
    rewrite IH; [reflexivity|]. intros I. apply H. right. exact I.
Qed.

Lemma nth_error_after (pre rest : list string) (x v : string) :
  nth_error (pre ++ x :: v :: rest)%list (S (List.length pre)) = Some v.
Proof.
  induction pre as [|y pre IH]; [reflexivity|exact IH].
Qed.

(** X27. The apps to check are the comma-separated items of the value that
    follows the first [--apps] on the command line, when that value is not
    empty. *)
Theorem parse_options_apps (pre post : list string) (value : string) :
  ~ In "--apps" pre ->
  value <> "" ->
  Options.specificApps (parse_options (pre ++ "--apps" :: value :: post)%list)
  = split_on (is_char ",") value.
Proof.
  intros H N. cbn [parse_options Options.specificApps]. unfold flag_value.
  rewrite (index_of_first pre (value :: post) "--apps" H), nth_error_after.
  unfold truthy. apply String.eqb_neq in N. rewrite N. reflexivity.
Qed.

Lemma parse_options_apps_witness :
  Options.specificApps
    (parse_options (["--dry-run"] ++ "--apps" :: "wordpress.yml,gitea.yml" :: [])%list)
  = split_on (is_char ",") "wordpress.yml,gitea.yml".
Proof.
  apply (parse_options_apps ["--dry-run"] [] "wordpress.yml,gitea.yml").
  - intros [H|[]]. discriminate H.
  - discriminate.
Defined.

Lemma firstn_prefix {A : Type} (n : nat) (l : list A) :
  exists rest, l = (firstn n l ++ rest)%list.
Proof.
  exists (skipn n l). symmetry. apply firstn_skipn.
Qed.

(** X28. With [--limit], the files checked are the first files of the
    selection, in order, never more than the selection has; for a value
    that [parseInt] reads as a positive integer [n] they are its first [n]
    files. *)
Theorem limit_files_prefix (files : list string) (limit : option number) :
  (exists rest, files = (limit_files files limit ++ rest)%list)
  /\ (forall n, limit = Some (Fin n) -> 0 < n ->
        limit_files files limit = firstn (Z.to_nat n) files).
Proof.
  split.
  - unfold limit_files, slice_to.
    destruct limit as [[|z| |]|]; cbn [truthy_number];
      try (exists []; now rewrite app_nil_r);
      try (exists files; reflexivity).
    destruct (negb (z =? 0)); [|exists []; now rewrite app_nil_r].
    destruct (z <? 0); apply firstn_prefix.
  - intros n -> Hn. unfold limit_files, slice_to. cbn [truthy_number].
    replace (n =? 0) with false by (symmetry; apply Z.eqb_neq; lia).
    replace (n <? 0) with false by (symmetry; apply Z.ltb_ge; lia).
    reflexivity.
Qed.
